(** * commitstreams-server: a shallow embedding of the REST backend

    The development follows the layout of the repository:

    - [Js]: the fragment of JavaScript values the handlers manipulate
      (objects as finite maps from property names to values), thrown errors
      and the [AppError] class;
    - [Mongo]: a collection of documents with the Mongoose calls the
      services use;
    - [Express]: requests, responses, middleware stacks and their dispatch;
    - [Server]: [server.js] (login handler, error-handling middleware);
    - [UserSchema], [UserService], [UserApi]: [domains/user];
    - [RoleApi]: [domains/role/api.js] (the role router);
    - [RepositoryService]: [domains/repository/service.js];
    - [TokenCodec]: the token codec of [auth];
    - [Handlers], [RoleHandlers]: the handlers of the role router;
    - [SessionRoutes]: the remaining routes of [server.js].

    The embedding comes first; the statements about it follow, one module
    of facts per part of the repository. *)

From stdpp Require Import gmap strings pretty list fin_maps.
From Stdlib Require Import ZArith Lia Ascii.

Local Open Scope string_scope.
Local Open Scope Z_scope.

(* ===================================================================== *)
(** * JavaScript values, errors and results *)
(* ===================================================================== *)

Module Js.

(** A JavaScript value. Objects are finite maps from own enumerable property
    names to values; [JDate v] is the object [new Date(v)]. An ObjectId is
    represented by a string, as it reads in a URL or a session. *)
#[warnings="-register-all"]
Inductive JsValue : Type :=
| JUndefined
| JNull
| JBool (b : bool)
| JNum (n : Z)
| JStr (s : string)
| JDate (src : JsValue)
| JArr (items : list JsValue)
| JObj (props : gmap string JsValue).

Abbreviation JsObject := (gmap string JsValue).

(** [!v] is [negb (truthy v)]. *)
Definition truthy (v : JsValue) : bool :=
  match v with
  | JUndefined | JNull => false
  | JBool b => b
  | JNum n => negb (n =? 0)
  | JStr s => negb (String.eqb s "")
  | JDate _ | JArr _ | JObj _ => true
  end.

(** [a === b] on primitives. Two object values are never identified: the
    model has no object identity, and the code only compares identifiers. *)
Definition strictEquals (a b : JsValue) : bool :=
  match a, b with
  | JUndefined, JUndefined => true
  | JNull, JNull => true
  | JBool x, JBool y => Bool.eqb x y
  | JNum x, JNum y => x =? y
  | JStr x, JStr y => String.eqb x y
  | _, _ => false
  end.

(** [a || b]. *)
Definition orElse (a b : JsValue) : JsValue := if truthy a then a else b.

(** [o.k] for an object [o]: [undefined] when the property is absent. *)
Definition prop (o : JsObject) (k : string) : JsValue := default JUndefined (o !! k).

(** The template literal [`${v}`]: primitives as JavaScript prints them,
    an array as its elements joined by commas, a plain object as
    [[object Object]]. The text of a [Date] depends on the time zone and is
    not modelled; no date reaches a template literal in this code. *)
Fixpoint toText (v : JsValue) : string :=
  match v with
  | JStr s => s
  | JUndefined => "undefined"
  | JNull => "null"
  | JBool true => "true"
  | JBool false => "false"
  | JNum n => pretty n
  | JArr items =>
      String.concat ","
        (map (fun item =>
                match item with
                | JUndefined | JNull => ""
                | _ => toText item
                end) items)
  | JDate _ => "[object Date]"
  | JObj _ => "[object Object]"
  end.

(** A thrown value: an [Error] object. [HTTPStatus] and [isTrusted] are
    [None] when the object has no such property. *)
Record JsError : Type := mkError {
  name : string;
  message : string;
  HTTPStatus : option Z;
  isTrusted : option bool;
}.

Definition TypeError (msg : string) : JsError :=
  {| name := "TypeError"; message := msg; HTTPStatus := None; isTrusted := None |}.

(** Modelled from the spec: the class [AppError] of
    [libraries/error-handling/AppError] is not among the sources. Its
    constructor takes (name, message, HTTPStatus) in the order of every call
    site; when the status is omitted the error carries 500, the default of
    the error-handling design (section 7). *)
Definition AppError (nm msg : string) (status : option Z) : JsError :=
  {| name := nm; message := msg;
     HTTPStatus := Some (default 500 status); isTrusted := Some true |}.

(** The outcome of evaluating an expression or awaiting a promise. *)
Inductive Result (A : Type) : Type :=
| Ok (a : A)
| Throw (e : JsError).
Arguments Ok {A} a.
Arguments Throw {A} e.

#[export] Instance Result_ret : MRet Result := fun A a => Ok a.
#[export] Instance Result_bind : MBind Result := fun A B f r =>
  match r with
  | Ok a => f a
  | Throw e => Throw e
  end.

(** The resolved value, if any. *)
Definition Ok_value {A} (r : Result A) : option A :=
  match r with
  | Ok a => Some a
  | Throw _ => None
  end.

(** [v.k] for an arbitrary value: reading a property of [null] or
    [undefined] throws. *)
Definition member (v : JsValue) (k : string) : Result JsValue :=
  match v with
  | JObj o => Ok (prop o k)
  | JUndefined =>
      Throw (TypeError ("Cannot read properties of undefined (reading '" +:+ k +:+ "')"))
  | JNull =>
      Throw (TypeError ("Cannot read properties of null (reading '" +:+ k +:+ "')"))
  | _ => Ok JUndefined
  end.

(** [const { k } = v]: destructuring [null] or [undefined] throws. *)
Definition destructure (v : JsValue) (k : string) : Result JsValue :=
  match v with
  | JObj o => Ok (prop o k)
  | JUndefined =>
      Throw (TypeError ("Cannot destructure property '" +:+ k +:+ "' as it is undefined."))
  | JNull =>
      Throw (TypeError ("Cannot destructure property '" +:+ k +:+ "' as it is null."))
  | _ => Ok JUndefined
  end.

(** The own enumerable properties a spread or rest pattern copies. *)
Definition ownProperties (v : JsValue) : JsObject :=
  match v with
  | JObj o => o
  | _ => ∅
  end.

(** The elements of an array value. *)
Definition elements (v : JsValue) : list JsValue :=
  match v with
  | JArr l => l
  | _ => []
  end.

(** [const { k, ...rest } = o]: the rest object lacks [k]. *)
Definition restWithout (k : string) (o : JsObject) : JsObject := delete k o.

End Js.
Export Js.

(* ===================================================================== *)
(** * Services: computations over the document store *)
(* ===================================================================== *)

Module Mongo.

(** A collection: its documents in natural (insertion) order, a counter
    for fresh ObjectIds, and [outage], which is [Some msg] while the driver
    rejects every call with an error carrying [msg]. *)
Record Collection : Type := mkCollection {
  docs : list JsObject;
  nextId : nat;
  outage : option string;
}.

Record Db : Type := mkDb {
  users : Collection;
  repositories : Collection;
}.

(** An [async] service function: it reads and updates the store and either
    resolves or rejects. *)
Definition Svc (A : Type) : Type := Db -> Result A * Db.

#[export] Instance Svc_ret : MRet Svc := fun A a db => (Ok a, db).
#[export] Instance Svc_bind : MBind Svc := fun A B f m db =>
  match m db with
  | (Ok a, db') => f a db'
  | (Throw e, db') => (Throw e, db')
  end.

Definition throw {A} (e : JsError) : Svc A := fun db => (Throw e, db).
Definition lift {A} (r : Result A) : Svc A := fun db => (r, db).

(** [try { body } catch (error) { handler error }]. *)
Definition tryCatch {A} (body : Svc A) (handler : JsError -> Svc A) : Svc A :=
  fun db =>
    match body db with
    | (Ok a, db') => (Ok a, db')
    | (Throw e, db') => handler e db'
    end.

Definition MongoError (msg : string) : JsError :=
  {| name := "MongoError"; message := msg; HTTPStatus := None; isTrusted := None |}.

(** Which collection a Mongoose model is bound to. *)
Inductive ModelName := UserModel | RepositoryModel.

Definition collectionOf (m : ModelName) (db : Db) : Collection :=
  match m with
  | UserModel => users db
  | RepositoryModel => repositories db
  end.

Definition withCollection (m : ModelName) (c : Collection) (db : Db) : Db :=
  match m with
  | UserModel => {| users := c; repositories := repositories db |}
  | RepositoryModel => {| users := users db; repositories := c |}
  end.

(** Every driver call first needs the store to answer. *)
Definition call {A} (m : ModelName) (k : Collection -> Result A * Collection) : Svc A :=
  fun db =>
    let c := collectionOf m db in
    match outage c with
    | Some msg => (Throw (MongoError msg), db)
    | None => let '(r, c') := k c in (r, withCollection m c' db)
    end.

Definition hasId (id : JsValue) (d : JsObject) : bool := strictEquals (prop d "_id") id.

(** A query filter [{ k1: v1, ... }] selects the documents that carry
    each listed value. *)
Definition matchesFilter (filter : JsObject) (d : JsObject) : bool :=
  forallb (fun kv => strictEquals (prop d kv.1) kv.2) (map_to_list filter).

Definition orNull (o : option JsObject) : JsValue :=
  match o with
  | Some d => JObj d
  | None => JNull
  end.

(** [Model.findById(id)]. *)
Definition findById (m : ModelName) (id : JsValue) : Svc JsValue :=
  call m (fun c => (Ok (orNull (List.find (hasId id) (docs c))), c)).

(** [Model.findOne(filter).exec()]: the first match in natural order. *)
Definition findOne (m : ModelName) (filter : JsObject) : Svc JsValue :=
  call m (fun c => (Ok (orNull (List.find (matchesFilter filter) (docs c))), c)).

(** An update operator applied to the first document with the given
    [_id]. *)
Fixpoint alterFirst (id : JsValue) (f : JsObject -> JsObject) (ds : list JsObject)
  : list JsObject :=
  match ds with
  | [] => []
  | d :: rest => if hasId id d then f d :: rest else d :: alterFirst id f rest
  end.

(** [$set] of every property of [data]: the listed properties are
    overwritten, the others kept. *)
Definition setFields (data : JsObject) (d : JsObject) : JsObject := data ∪ d.

(** [$push] of [item] to the array property [field]. *)
Definition pushTo (field : string) (item : JsValue) (d : JsObject) : JsObject :=
  <[field := JArr (elements (prop d field) ++ [item])]> d.

Definition updateFirst (m : ModelName) (id : JsValue) (f : JsObject -> JsObject)
  : Svc JsValue :=
  call m (fun c =>
    (Ok (orNull (f <$> List.find (hasId id) (docs c))),
     {| docs := alterFirst id f (docs c); nextId := nextId c; outage := outage c |})).

(** [Model.findByIdAndUpdate(id, data, { new: true })]: resolves to the
    document after the update, or to [null]. *)
Definition findByIdAndUpdate (m : ModelName) (id : JsValue) (data : JsObject) : Svc JsValue :=
  updateFirst m id (setFields data).

Fixpoint removeFirst (id : JsValue) (ds : list JsObject) : list JsObject :=
  match ds with
  | [] => []
  | d :: rest => if hasId id d then rest else d :: removeFirst id rest
  end.

(** [Model.findByIdAndDelete(id)]: resolves to the removed document, or to
    [null] when there is none. *)
Definition findByIdAndDelete (m : ModelName) (id : JsValue) : Svc JsValue :=
  call m (fun c =>
    (Ok (orNull (List.find (hasId id) (docs c))),
     {| docs := removeFirst id (docs c); nextId := nextId c; outage := outage c |})).

(** The ObjectId handed to the [n]-th document of a collection. *)
Definition objectId (n : nat) : JsValue := JStr ("oid:" +:+ pretty n).

(** [new Model(data).save()]: the document receives a fresh [_id] and is
    appended. *)
Definition save (m : ModelName) (data : JsObject) : Svc JsObject :=
  call m (fun c =>
    let d := <["_id" := objectId (nextId c)]> data in
    (Ok d, {| docs := docs c ++ [d]; nextId := S (nextId c); outage := outage c |})).

End Mongo.
Export Mongo.

(* ===================================================================== *)
(** * [domains/repository/service.js] *)
(* ===================================================================== *)

Module RepositoryService.

Definition model : string := "repository".

(** The logger calls are left out, except where evaluating their arguments
    can throw. *)

Definition create (data : JsObject) : Svc JsObject :=
  tryCatch
    (saved ← save RepositoryModel data;
     mret saved)
    (fun error => throw (AppError ("Failed to create " +:+ model) (message error) None)).

Definition search (searchPayload : JsValue) : Svc JsValue :=
  tryCatch
    (let payload :=
       match searchPayload with
       | JUndefined | JNull => JObj ∅
       | v => v
       end in
     username ← lift (destructure payload "username");
     repository ← lift (destructure payload "repository");
     if negb (truthy username) || negb (truthy repository) then
       throw (AppError "Username and Repository are required" "Bad Request" (Some 400))
     else
       let filter : JsObject :=
         if truthy username && truthy repository then
           {[ "full_name" := JStr (toText username +:+ "/" +:+ toText repository) ]}
         else ∅ in
       item ← findOne RepositoryModel filter;
       mret item)
    (fun error => throw (AppError ("Failed to search " +:+ model) (message error) (Some 400))).

Definition getById (id : JsValue) : Svc JsValue :=
  tryCatch
    (item ← findById RepositoryModel id;
     (* logger.info(..., { id, _id: item._id }) *)
     _ ← lift (member item "_id");
     mret item)
    (fun error => throw (AppError ("Failed to get " +:+ model) (message error) None)).

Definition updateById (id : JsValue) (data : JsObject) : Svc JsValue :=
  tryCatch
    (item ← findByIdAndUpdate RepositoryModel id data;
     mret item)
    (fun error => throw (AppError ("Failed to update " +:+ model) (message error) None)).

Definition deleteById (id : JsValue) : Svc bool :=
  tryCatch
    (_ ← findByIdAndDelete RepositoryModel id;
     mret true)
    (fun error => throw (AppError ("Failed to delete " +:+ model) (message error) None)).

Definition mapGithubResponseToSchema (response : JsValue) : Result JsObject :=
  id ← member response "id";
  node_id ← member response "node_id";
  name ← member response "name";
  full_name ← member response "full_name";
  private ← member response "private";
  owner ← member response "owner";
  owner_login ← member owner "login";
  owner_id ← member owner "id";
  owner_avatar_url ← member owner "avatar_url";
  owner_type ← member owner "type";
  html_url ← member response "html_url";
  description ← member response "description";
  fork ← member response "fork";
  url ← member response "url";
  created_at ← member response "created_at";
  updated_at ← member response "updated_at";
  pushed_at ← member response "pushed_at";
  homepage ← member response "homepage";
  size ← member response "size";
  stargazers_count ← member response "stargazers_count";
  watchers_count ← member response "watchers_count";
  language ← member response "language";
  languages ← member response "languages";
  forks_count ← member response "forks_count";
  archived ← member response "archived";
  disabled ← member response "disabled";
  open_issues_count ← member response "open_issues_count";
  license ← member response "license";
  license_key ← member license "key";
  license_name ← member license "name";
  license_spdx_id ← member license "spdx_id";
  license_url ← member license "url";
  license_node_id ← member license "node_id";
  topics ← member response "topics";
  visibility ← member response "visibility";
  default_branch ← member response "default_branch";
  mret (list_to_map
    [ ("id", id);
      ("node_id", node_id);
      ("name", name);
      ("full_name", full_name);
      ("private", private);
      ("owner", JObj (list_to_map
         [ ("login", owner_login);
           ("id", owner_id);
           ("avatar_url", owner_avatar_url);
           ("type", owner_type) ]));
      ("html_url", html_url);
      ("description", description);
      ("fork", fork);
      ("url", url);
      ("created_at", JDate created_at);
      ("updated_at", JDate updated_at);
      ("pushed_at", JDate pushed_at);
      ("homepage", homepage);
      ("size", size);
      ("stargazers_count", stargazers_count);
      ("watchers_count", watchers_count);
      ("language", language);
      ("languages", languages);
      ("forks_count", forks_count);
      ("archived", archived);
      ("disabled", disabled);
      ("open_issues_count", open_issues_count);
      ("license", JObj (list_to_map
         [ ("key", license_key);
           ("name", license_name);
           ("spdx_id", license_spdx_id);
           ("url", license_url);
           ("node_id", license_node_id) ]));
      ("topics", topics);
      ("visibility", visibility);
      ("default_branch", default_branch) ]).

(** The property names [mapSelectedGithubResponseToSchema] writes. *)
Definition selectedFields : list string :=
  [ "description"; "updated_at"; "pushed_at"; "homepage"; "size";
    "stargazers_count"; "watchers_count"; "language"; "languages";
    "forks_count"; "archived"; "disabled"; "open_issues_count"; "topics" ].

Definition mapSelectedGithubResponseToSchema (response : JsValue) : Result JsObject :=
  description ← member response "description";
  updated_at ← member response "updated_at";
  pushed_at ← member response "pushed_at";
  homepage ← member response "homepage";
  size ← member response "size";
  stargazers_count ← member response "stargazers_count";
  watchers_count ← member response "watchers_count";
  language ← member response "language";
  languages ← member response "languages";
  forks_count ← member response "forks_count";
  archived ← member response "archived";
  disabled ← member response "disabled";
  open_issues_count ← member response "open_issues_count";
  topics ← member response "topics";
  mret (list_to_map
    [ ("description", description);
      ("updated_at", JDate updated_at);
      ("pushed_at", JDate pushed_at);
      ("homepage", homepage);
      ("size", size);
      ("stargazers_count", stargazers_count);
      ("watchers_count", watchers_count);
      ("language", language);
      ("languages", languages);
      ("forks_count", forks_count);
      ("archived", archived);
      ("disabled", disabled);
      ("open_issues_count", open_issues_count);
      ("topics", topics) ]).

Section Fetch.

(** [decryptToken] of [auth] and [fetchRepoDetails] of
    [libraries/util/githubUtils] (the GitHub client) are collaborators of
    this service. *)
Variable decryptToken : JsValue -> JsValue -> Result string.
Variable fetchRepoDetails : string -> string -> string -> Result JsValue.

Definition fetchGitHubRepoDetails (owner repo : string) (user : JsValue) : Svc JsValue :=
  tryCatch
    (_id ← lift (destructure user "_id");
     dbUser ← findById UserModel _id;
     accessToken ← lift (destructure dbUser "accessToken");
     accessTokenIV ← lift (destructure dbUser "accessTokenIV");
     token ← lift (decryptToken accessToken accessTokenIV);
     response ← lift (fetchRepoDetails owner repo token);
     id ← lift (destructure response "id");
     existingRepository ← findOne RepositoryModel {[ "id" := id ]};
     if truthy existingRepository then
       data ← lift (mapSelectedGithubResponseToSchema response);
       existingId ← lift (member existingRepository "_id");
       updatedRepository ← updateById existingId data;
       mret updatedRepository
     else
       data ← lift (mapGithubResponseToSchema response);
       repository ← create data;
       mret (JObj repository))
    (fun error =>
       throw (AppError "Failed to fetch repository details" (message error) None)).

End Fetch.

End RepositoryService.

(* ===================================================================== *)
(** * Express: requests, responses, routers *)
(* ===================================================================== *)

Module Express.

Inductive Method := GET | POST | PUT | DELETE.

#[export] Instance Method_eq_dec : EqDecision Method.
Proof. solve_decision. Defined.

(** A segment of a route path: a literal or a named parameter [:name]. *)
Inductive Segment := Lit (s : string) | Param (p : string).

(** [path] holds the segments of the URL below the router's mount point;
    [user] is [req.user], [undefined] without an authenticated session. *)
Record Request : Type := mkRequest {
  method : Method;
  path : list string;
  params : JsObject;
  query : JsValue;
  body : JsValue;
  user : JsValue;
}.

(** A response as the code builds it: the status given to [res.status]
    and the value handed to [res.json] or [res.send]. *)
Record Response : Type := mkResponse {
  status : Z;
  json : JsValue;
}.

(** How a layer ends a request: it sends a response, calls [next(error)],
    or throws outside any [try], which rejects the promise of the [async]
    handler without an answer from the router. *)
Inductive Outcome :=
| Sent (r : Response)
| NextError (e : JsError)
| Unhandled (e : JsError).

(** [res.json(v)] answers with status 200 unless [res.status] was called. *)
Definition resJson (v : JsValue) : Outcome := Sent {| status := 200; json := v |}.
Definition resStatusJson (code : Z) (v : JsValue) : Outcome :=
  Sent {| status := code; json := v |}.

(** [express.Router()] is created without [caseSensitive]: the letters of
    a literal segment match without regard to their case. Only the letters
    [A]-[Z] and [a]-[z] are folded. *)
Definition lowerCase (c : ascii) : ascii :=
  let n := nat_of_ascii c in
  if ((65 <=? n) && (n <=? 90))%nat then ascii_of_nat (n + 32) else c.

Fixpoint toLowerCase (s : string) : string :=
  match s with
  | EmptyString => EmptyString
  | String c rest => String (lowerCase c) (toLowerCase rest)
  end.

Definition sameLiteral (s x : string) : bool :=
  String.eqb (toLowerCase s) (toLowerCase x).

(** Matching the segments of a URL against a route path; the result is
    [req.params]. The segments are those of a path without percent-escapes
    (Express matches the path as sent and decodes a parameter afterwards). *)
Fixpoint matchPath (pattern : list Segment) (p : list string) : option JsObject :=
  match pattern, p with
  | [], [] => Some ∅
  | Lit s :: pattern', x :: p' =>
      if sameLiteral s x then matchPath pattern' p' else None
  | Param k :: pattern', x :: p' =>
      (fun ps : JsObject => <[k := JStr x]> ps) <$> matchPath pattern' p'
  | _, _ => None
  end.

(** Which part of the request [validateRequest] checks: the body, or the
    query with [isQuery], or the parameters with [isParam]. *)
Inductive Source := InBody | InQuery | InParams.

(** The layers the routers of this repository are built from, over the
    schemas [S] and the final handlers [H] of a router. *)
Inductive Middleware (S H : Type) : Type :=
| logRequest
| isAuthorized
| validateRequest (schema : S) (source : Source)
| handler (h : H).
Arguments logRequest {S H}.
Arguments isAuthorized {S H}.
Arguments validateRequest {S H} schema source.
Arguments handler {S H} h.

Record Route (S H : Type) : Type := mkRoute {
  verb : Method;
  pattern : list Segment;
  stack : list (Middleware S H);
}.
Arguments mkRoute {S H}.
Arguments verb {S H}.
Arguments pattern {S H}.
Arguments stack {S H}.

(** What a request leaves behind while it travels through a router. *)
Inductive Event (S H : Type) : Type :=
| Logged
| AuthorizationChecked (granted : bool)
| Validated (schema : S) (source : Source) (ok : bool)
| Entered (h : H)
| Invoked (operation : string) (args : list JsValue).
Arguments Logged {S H}.
Arguments AuthorizationChecked {S H} granted.
Arguments Validated {S H} schema source ok.
Arguments Entered {S H} h.
Arguments Invoked {S H} operation args.

(** The result of a final handler: its outcome, the service operations it
    invoked, and the store afterwards. *)
Record Handled : Type := mkHandled {
  outcome : Outcome;
  invoked : list (string * list JsValue);
  after : Db;
}.

(** The run of a request: [result] is [None] when every layer called
    [next()]. *)
Record Run (S H : Type) : Type := mkRun {
  trace : list (Event S H);
  result : option Outcome;
  store : Db;
}.
Arguments mkRun {S H}.
Arguments trace {S H}.
Arguments result {S H}.
Arguments store {S H}.

Section Dispatch.
Context {S H : Type}.

(** The middlewares [middlewares/auth/authorization] and
    [middlewares/request-validate] are collaborators: each either calls
    [next()] ([None]) or ends the request. *)
Variable authorize : Request -> option Outcome.
Variable validate : S -> Source -> Request -> option Outcome.
Variable handle : H -> Request -> Db -> Handled.

Definition emit (ev : Event S H) (r : Run S H) : Run S H :=
  {| trace := ev :: trace r; result := result r; store := store r |}.

Fixpoint runStack (layers : list (Middleware S H)) (req : Request) (db : Db) : Run S H :=
  match layers with
  | [] => {| trace := []; result := None; store := db |}
  | logRequest :: rest => emit Logged (runStack rest req db)
  | isAuthorized :: rest =>
      match authorize req with
      | None => emit (AuthorizationChecked true) (runStack rest req db)
      | Some o => {| trace := [AuthorizationChecked false]; result := Some o; store := db |}
      end
  | validateRequest schema source :: rest =>
      match validate schema source req with
      | None => emit (Validated schema source true) (runStack rest req db)
      | Some o => {| trace := [Validated schema source false]; result := Some o; store := db |}
      end
  | handler h :: _ =>
      let r := handle h req db in
      {| trace := Entered h :: map (fun c => Invoked c.1 c.2) (invoked r);
         result := Some (outcome r);
         store := after r |}
  end.

Definition withParams (ps : JsObject) (req : Request) : Request :=
  {| method := method req; path := path req; params := ps;
     query := query req; body := body req; user := user req |}.

(** A router tries its routes in the order of their definition. *)
Fixpoint dispatch (routes : list (Route S H)) (req : Request) (db : Db) : Run S H :=
  match routes with
  | [] => {| trace := []; result := None; store := db |}
  | r :: rest =>
      if decide (verb r = method req) then
        match matchPath (pattern r) (path req) with
        | Some ps =>
            let run := runStack (stack r) (withParams ps req) db in
            match result run with
            | Some _ => run
            | None =>
                let run' := dispatch rest req (store run) in
                {| trace := trace run ++ trace run'; result := result run'; store := store run' |}
            end
        | None => dispatch rest req db
        end
      else dispatch rest req db
  end.

End Dispatch.

End Express.
Export Express.

(* ===================================================================== *)
(** * [server.js] *)
(* ===================================================================== *)

Module Server.

(** [x || d] for an optional number [x]: zero is falsy. *)
Definition orDefault (x : option Z) (d : Z) : Z :=
  match x with
  | Some n => if n =? 0 then d else n
  | None => d
  end.

(** What [errorHandler.handleError] resolves to, as far as the middleware
    looks at it: the own enumerable properties, which a spread copies, and
    the [message], which for an [Error] is not among them. *)
Record Normalised : Type := mkNormalised {
  enumerable : JsObject;
  normalMessage : JsValue;
}.

(** The status codes the HTTP server accepts: writing the head of a
    response with another one throws a [RangeError]. *)
Definition validStatus (code : Z) : bool := (100 <=? code) && (code <=? 999).

Definition markTrusted (error : JsError) : JsError :=
  match isTrusted error with
  | None => {| name := name error; message := message error;
               HTTPStatus := HTTPStatus error; isTrusted := Some true |}
  | Some _ => error
  end.

(** Modelled from the spec: the code has the single error class
    [AppError]; section 7 names the kinds of error by the status they
    surface with. *)
Inductive ErrorKind :=
| ValidationError
| AuthenticationError
| AuthorizationError
| NotFoundError
| InternalError.

Definition errorKind (e : JsError) : ErrorKind :=
  let code := orDefault (HTTPStatus e) 500 in
  if code =? 400 then ValidationError
  else if code =? 401 then AuthenticationError
  else if code =? 403 then AuthorizationError
  else if code =? 404 then NotFoundError
  else InternalError.

Section ErrorHandling.

(** [errorHandler.handleError] of [libraries/error-handling] resolves to
    the normalised error. *)
Variable handleError : JsError -> Normalised.

(** The middleware installed by [defineErrorHandlingMiddleware]: the
    response it sends, or [None] when [res.status(..).json(..)] throws on
    the status and nothing is sent. *)
Definition defineErrorHandlingMiddleware (error : JsError) : option Response :=
  let error := markTrusted error in
  let appError := handleError error in
  let code := orDefault (HTTPStatus error) 500 in
  if validStatus code then
    Some {| status := code;
            json := JObj (<["errorMessage" := normalMessage appError]>
                            (enumerable appError)) |}
  else None.

(** The response a client receives for the outcome of a router. *)
Definition surface (o : Outcome) : option Response :=
  match o with
  | Sent r => Some r
  | NextError e => defineErrorHandlingMiddleware e
  | Unhandled _ => None
  end.

End ErrorHandling.

(** What [passport.authenticate] hands to its callback. *)
Record Verdict : Type := mkVerdict {
  err : option JsError;
  authenticated : JsValue;
  info : JsValue;
}.

Section Login.

(** [req.logIn] establishes the session; it may fail. *)
Variable logIn : JsValue -> option JsError.

(** The callback of [POST /api/login]. *)
Definition loginCallback (v : Verdict) : Outcome :=
  match err v with
  | Some e => NextError e
  | None =>
      let user := authenticated v in
      if negb (truthy user) then
        match member (info v) "message" with
        | Throw e => Unhandled e
        | Ok m =>
            resStatusJson 401
              (JObj {[ "message" := orElse m (JStr "Authentication failed") ]})
        end
      else
        match logIn user with
        | Some e => NextError e
        | None =>
            let userWithoutPassword := restWithout "password" (ownProperties user) in
            resJson (JObj (list_to_map
              [ ("message", JStr "Login successful");
                ("user", JObj userWithoutPassword) ]))
        end
  end.

End Login.

Section LocalStrategy.

(** [bcrypt.compare password hash]. *)
Variable compare : string -> string -> bool.

(** Modelled from the spec: the local strategy of [auth] is not among the
    sources. Section 4.2: it looks the user up by username, compares the
    password against the stored hash, fails when there is no such user or
    the password is wrong, and on success returns the user record. *)
Definition localStrategy (username password : string) : Svc Verdict :=
  found ← findOne UserModel {[ "username" := JStr username ]};
  match found with
  | JObj u =>
      if compare password (toText (prop u "password")) then
        mret {| err := None; authenticated := JObj u; info := JUndefined |}
      else
        mret {| err := None; authenticated := JBool false;
                info := JObj {[ "message" := JStr "Incorrect password" ]} |}
  | _ =>
      mret {| err := None; authenticated := JBool false;
              info := JObj {[ "message" := JStr "Incorrect username" ]} |}
  end.

(** [POST /api/login]: a rejected store call reaches the callback as
    [err]. *)
Definition login (logIn : JsValue -> option JsError) (username password : string)
  (db : Db) : Outcome :=
  match localStrategy username password db with
  | (Ok v, _) => loginCallback logIn v
  | (Throw e, _) =>
      loginCallback logIn {| err := Some e; authenticated := JUndefined; info := JUndefined |}
  end.

End LocalStrategy.

End Server.

(* ===================================================================== *)
(** * [domains/user/schema.js]: the follow relations *)
(* ===================================================================== *)

Module UserSchema.

(** [csFollowers] and [csFollowing] are arrays of subdocuments
    [{ _id, date }]; the schema declares no uniqueness on them. *)

Definition followEntry (id date : JsValue) : JsValue :=
  JObj (list_to_map [ ("_id", id); ("date", date) ]).

Definition pointsTo (id : JsValue) (entry : JsValue) : bool :=
  strictEquals (prop (ownProperties entry) "_id") id.

(** The entries of the array property [field] of [d] that refer to [id]. *)
Definition edges (field : string) (id : JsValue) (d : JsObject) : list JsValue :=
  List.filter (pointsTo id) (elements (prop d field)).

(** The follow edges from [a] to [b] stored in the collection: the entries
    for [b] in [a]'s [csFollowing], and the entries for [a] in [b]'s
    [csFollowers]. *)
Definition following (a b : JsValue) (c : Collection) : list JsValue :=
  match List.find (hasId a) (docs c) with
  | Some d => edges "csFollowing" b d
  | None => []
  end.

Definition followers (a b : JsValue) (c : Collection) : list JsValue :=
  match List.find (hasId b) (docs c) with
  | Some d => edges "csFollowers" a d
  | None => []
  end.

End UserSchema.

(* ===================================================================== *)
(** * [domains/user/service.js] *)
(* ===================================================================== *)

Module UserService.
Import UserSchema.

Section FollowUser.

(** [Date.now()] at the time of the call. *)
Variable now : JsValue.

(** Modelled from the spec: [followUser] of [domains/user/service.js] is
    not among the sources. Section 4.6: it fails with a validation error
    when caller and target coincide; otherwise it adds a timestamped entry
    in both directions, and the source appends without a duplicate
    check. *)
Definition followUser (callerId targetId : JsValue) : Svc JsValue :=
  if strictEquals callerId targetId then
    throw (AppError "ValidationError" "Cannot follow yourself" (Some 400))
  else
    _ ← updateFirst UserModel callerId (pushTo "csFollowing" (followEntry targetId now));
    _ ← updateFirst UserModel targetId (pushTo "csFollowers" (followEntry callerId now));
    mret (JBool true).

End FollowUser.

End UserService.

(* ===================================================================== *)
(** * [domains/user/api.js] *)
(* ===================================================================== *)

Module UserApi.

Definition model : string := "User".

(** The service, as the router imports it from [./service]. *)
Record Service : Type := mkService {
  search : JsValue -> Svc JsValue;
  count : JsValue -> Svc JsValue;
  getById : JsValue -> Svc JsValue;
  create : JsValue -> Svc JsValue;
  updateById : JsValue -> JsValue -> Svc JsValue;
  deleteById : JsValue -> Svc JsValue;
  followUser : JsValue -> JsValue -> Svc JsValue;
}.

Inductive Schema := createSchema | updateSchema | idSchema | searchSchema.

Inductive Handler :=
| searchHandler
| countHandler
| followHandler
| createHandler
| getByIdHandler
| updateByIdHandler
| deleteByIdHandler.

Definition routes : list (Route Schema Handler) :=
  [ mkRoute GET [Lit "search"]
      [logRequest; validateRequest searchSchema InQuery; handler searchHandler];
    mkRoute GET [Lit "count"]
      [logRequest; validateRequest searchSchema InQuery; handler countHandler];
    mkRoute GET [Param "id"; Lit "follow"]
      [logRequest; validateRequest idSchema InParams; handler followHandler];
    mkRoute POST []
      [logRequest; validateRequest createSchema InBody; handler createHandler];
    mkRoute GET [Param "id"]
      [logRequest; validateRequest idSchema InParams; handler getByIdHandler];
    mkRoute PUT [Param "id"]
      [logRequest; validateRequest idSchema InParams;
       validateRequest updateSchema InBody; handler updateByIdHandler];
    mkRoute DELETE [Param "id"]
      [logRequest; validateRequest idSchema InParams; handler deleteByIdHandler] ].

Section Handlers.

Variable service : Service.

(** [try { ... await op ... } catch (error) { next(error) }] around one
    service call; [respond] builds the answer from the resolved value, and
    may itself throw inside the [try]. *)
Definition awaiting (operation : string) (args : list JsValue) (op : Svc JsValue)
  (respond : JsValue -> Result Outcome) (db : Db) : Handled :=
  match op db with
  | (Ok v, db') =>
      {| outcome := match respond v with Ok o => o | Throw e => NextError e end;
         invoked := [(operation, args)]; after := db' |}
  | (Throw e, db') =>
      {| outcome := NextError e; invoked := [(operation, args)]; after := db' |}
  end.

Definition notFound : JsError :=
  AppError (model +:+ " not found") (model +:+ " not found") (Some 404).

Definition handle (h : Handler) (req : Request) (db : Db) : Handled :=
  match h with
  | searchHandler =>
      awaiting "search" [query req] (search service (query req))
        (fun items => Ok (resJson items)) db
  | countHandler =>
      awaiting "count" [query req] (count service (query req))
        (fun total => Ok (resJson (JObj {[ "total" := total ]}))) db
  | followHandler =>
      (* const currentUserId = req.user._id;  -- before the try *)
      match member (user req) "_id" with
      | Throw e => {| outcome := Unhandled e; invoked := []; after := db |}
      | Ok currentUserId =>
          let id := prop (params req) "id" in
          if strictEquals currentUserId id then
            {| outcome :=
                 NextError
                   (AppError "Cannot follow yourself" "Cannot follow yourself" (Some 400));
               invoked := []; after := db |}
          else
            awaiting "followUser" [currentUserId; id]
              (followUser service currentUserId id)
              (fun result => Ok (resStatusJson 200 (JObj {[ "result" := result ]}))) db
      end
  | createHandler =>
      awaiting "create" [body req] (create service (body req))
        (fun item => Ok (resStatusJson 201 item)) db
  | getByIdHandler =>
      let id := prop (params req) "id" in
      awaiting "getById" [id] (getById service id)
        (fun item =>
           if negb (truthy item) then Throw notFound
           else Ok (resStatusJson 200 item)) db
  | updateByIdHandler =>
      let id := prop (params req) "id" in
      awaiting "updateById" [id; body req] (updateById service id (body req))
        (fun item =>
           if negb (truthy item) then Throw notFound
           else Ok (resStatusJson 200 item)) db
  | deleteByIdHandler =>
      let id := prop (params req) "id" in
      awaiting "deleteById" [id] (deleteById service id)
        (fun _ =>
           Ok (resStatusJson 204 (JObj {[ "message" := JStr "model is deleted" ]}))) db
  end.

End Handlers.

(** The router mounted for the user resource. *)
Definition router (validate : Schema -> Source -> Request -> option Outcome)
  (service : Service) (req : Request) (db : Db) : Run Schema Handler :=
  dispatch (fun _ => None) validate (handle service) routes req db.

End UserApi.

(* ===================================================================== *)
(** * [domains/role/api.js] *)
(* ===================================================================== *)

Module RoleApi.

Definition model : string := "Role".

Inductive Schema :=
| createSchema
| updateSchema
| idSchema
| searchSchema
| permissionsSchema.

Inductive Handler :=
| searchHandler
| countHandler
| createHandler
| getByIdHandler
| updateByIdHandler
| deleteByIdHandler
| getPermissionsHandler
| updatePermissionsHandler.

#[export] Instance Handler_eq_dec : EqDecision Handler.
Proof. solve_decision. Defined.

Definition routes : list (Route Schema Handler) :=
  [ mkRoute GET [Lit "search"]
      [logRequest; validateRequest searchSchema InQuery; handler searchHandler];
    mkRoute GET [Lit "count"]
      [logRequest; validateRequest searchSchema InQuery; handler countHandler];
    mkRoute POST []
      [logRequest; isAuthorized; validateRequest createSchema InBody;
       handler createHandler];
    mkRoute GET [Param "id"]
      [logRequest; validateRequest idSchema InParams; handler getByIdHandler];
    mkRoute PUT [Param "id"]
      [logRequest; isAuthorized; validateRequest idSchema InParams;
       validateRequest updateSchema InBody; handler updateByIdHandler];
    mkRoute DELETE [Param "id"]
      [logRequest; isAuthorized; validateRequest idSchema InParams;
       handler deleteByIdHandler];
    mkRoute GET [Param "id"; Lit "permissions"]
      [logRequest; validateRequest idSchema InParams; handler getPermissionsHandler];
    mkRoute PUT [Param "id"; Lit "permissions"]
      [logRequest; isAuthorized; validateRequest idSchema InParams;
       validateRequest permissionsSchema InBody; handler updatePermissionsHandler] ].

(** The handlers that create, change or delete a role. *)
Definition mutating (h : Handler) : bool :=
  match h with
  | createHandler | updateByIdHandler | deleteByIdHandler | updatePermissionsHandler => true
  | _ => false
  end.

(** A stack is gated when no mutating handler stands in it before
    [isAuthorized]. *)
Fixpoint gated (layers : list (Middleware Schema Handler)) : bool :=
  match layers with
  | [] => true
  | isAuthorized :: _ => true
  | handler h :: _ => negb (mutating h)
  | _ :: rest => gated rest
  end.

(** The route registered for a method and path, with the handler that
    ends its stack. *)
Definition registered (v : Method) (p : list Segment) (h : Handler) : Prop :=
  ∃ before, mkRoute v p (before ++ [handler h]) ∈ routes ∧ isAuthorized ∈ before.

End RoleApi.

(* ===================================================================== *)
(** * The token codec of [auth] *)
(* ===================================================================== *)

Module TokenCodec.

Local Open Scope nat_scope.

(** Bytes are the characters of Rocq's strings; a token is a string. *)
Definition xorByte (a b : ascii) : ascii :=
  match a, b with
  | Ascii a0 a1 a2 a3 a4 a5 a6 a7, Ascii b0 b1 b2 b3 b4 b5 b6 b7 =>
      Ascii (xorb a0 b0) (xorb a1 b1) (xorb a2 b2) (xorb a3 b3)
            (xorb a4 b4) (xorb a5 b5) (xorb a6 b6) (xorb a7 b7)
  end.

Definition xorBlock (a b : list ascii) : list ascii := zip_with xorByte a b.

Definition DecryptionError : JsError :=
  {| name := "DecryptionError"; message := "bad decrypt";
     HTTPStatus := Some 500%Z; isTrusted := Some true |}.

Section Cipher.

(** The block cipher under the configured key: a permutation of the
    blocks of [blockSize] bytes and its inverse. *)
Variable blockSize : nat.
Context {Key : Type}.
Variable encryptBlock decryptBlock : Key -> list ascii -> list ascii.

(** Padding to a whole number of blocks: [n] bytes of value [n], with
    [1 <= n <= blockSize]. *)
Definition padLength (len : nat) : nat := blockSize - len mod blockSize.

Definition pad (m : list ascii) : list ascii :=
  let n := padLength (length m) in
  m ++ replicate n (ascii_of_nat n).

Definition unpad (m : list ascii) : option (list ascii) :=
  match last m with
  | None => None
  | Some c =>
      let n := nat_of_ascii c in
      if bool_decide (1 <= n <= blockSize ∧ n <= length m
                      ∧ drop (length m - n) m = replicate n c)
      then Some (take (length m - n) m)
      else None
  end.

(** Cutting a byte string into blocks; [length m] steps always suffice. *)
Fixpoint blocksUpTo (steps : nat) (m : list ascii) : list (list ascii) :=
  match steps with
  | 0 => []
  | S steps' =>
      match m with
      | [] => []
      | _ => take blockSize m :: blocksUpTo steps' (drop blockSize m)
      end
  end.

Definition blocks (m : list ascii) : list (list ascii) := blocksUpTo (length m) m.

(** Cipher block chaining: every block is mixed with the previous
    ciphertext block, the first one with the IV. *)
Fixpoint chainEncrypt (k : Key) (previous : list ascii) (bs : list (list ascii))
  : list (list ascii) :=
  match bs with
  | [] => []
  | b :: rest =>
      let c := encryptBlock k (xorBlock b previous) in
      c :: chainEncrypt k c rest
  end.

Fixpoint chainDecrypt (k : Key) (previous : list ascii) (cs : list (list ascii))
  : list (list ascii) :=
  match cs with
  | [] => []
  | c :: rest => xorBlock (decryptBlock k c) previous :: chainDecrypt k c rest
  end.

(** Modelled from the spec: [encryptToken] and [decryptToken] of [auth]
    are not among the sources. Section 4.1: [encrypt(plaintext) ->
    (ciphertext, iv)] with a CBC-mode cipher and an IV generated afresh
    for the encryption ([fresh] is the output of the random generator);
    [decrypt(ciphertext, iv) -> plaintext] fails with a decryption error
    when the IV or the ciphertext is malformed. *)
Definition encryptToken (k : Key) (fresh : list ascii) (token : string)
  : string * list ascii :=
  let iv := fresh in
  let plaintext := String.list_ascii_of_string token in
  (String.string_of_list_ascii (concat (chainEncrypt k iv (blocks (pad plaintext)))), iv).

Definition decryptToken (k : Key) (ciphertext : string) (iv : list ascii)
  : Result string :=
  let c := String.list_ascii_of_string ciphertext in
  if bool_decide (length iv = blockSize ∧ c ≠ [] ∧ length c mod blockSize = 0) then
    match unpad (concat (chainDecrypt k iv (blocks c))) with
    | Some plaintext => Ok (String.string_of_list_ascii plaintext)
    | None => Throw DecryptionError
    end
  else Throw DecryptionError.

End Cipher.

End TokenCodec.

(* ===================================================================== *)
(** * Handler bodies *)
(* ===================================================================== *)

Module Handlers.

(** The body of a handler inside its [try]: it awaits service operations
    in turn; the operations invoked so far are recorded. *)
Definition Handling (A : Type) : Type :=
  Db -> Result A * list (string * list JsValue) * Db.

#[export] Instance Handling_ret : MRet Handling := fun A a db => (Ok a, [], db).
#[export] Instance Handling_bind : MBind Handling := fun A B f m db =>
  match m db with
  | (Ok a, calls, db') =>
      let '(r, calls', db'') := f a db' in (r, (calls ++ calls')%list, db'')
  | (Throw e, calls, db') => (Throw e, calls, db')
  end.

(** [await operation(...args)]. *)
Definition invoke {A} (operation : string) (args : list JsValue) (op : Svc A)
  : Handling A :=
  fun db => let '(r, db') := op db in (r, [(operation, args)], db').

Definition raise {A} (e : JsError) : Handling A := fun db => (Throw e, [], db).
Definition evaluate {A} (r : Result A) : Handling A := fun db => (r, [], db).

(** [try { body } catch (error) { next(error) }]. *)
Definition handling (body : Handling Outcome) (db : Db) : Handled :=
  match body db with
  | (Ok o, calls, db') => {| outcome := o; invoked := calls; after := db' |}
  | (Throw e, calls, db') => {| outcome := NextError e; invoked := calls; after := db' |}
  end.

End Handlers.

(* ===================================================================== *)
(** * [domains/role/api.js]: the handlers *)
(* ===================================================================== *)

Module RoleHandlers.
Import RoleApi Handlers.

(** The service, as the router imports it from [./service]. *)
Record Service : Type := mkService {
  search : JsValue -> Svc JsValue;
  count : JsValue -> Svc JsValue;
  getById : JsValue -> Svc JsValue;
  create : JsValue -> Svc JsValue;
  updateById : JsValue -> JsValue -> Svc JsValue;
  deleteById : JsValue -> Svc JsValue;
  getAllGroupedByType : Svc JsValue;
  updateRolePermissions : JsValue -> JsValue -> Svc JsValue;
}.

Definition notFound : JsError :=
  AppError (model +:+ " not found") (model +:+ " not found") (Some 404).

Definition notIterable (what : string) : JsError :=
  TypeError (what +:+ " is not iterable").

(** One entry [[key, value]] of an iterable of entries. *)
Definition entryOf (v : JsValue) : Result (string * JsValue) :=
  match v with
  | JArr (k :: rest) => Ok (toText k, hd JUndefined rest)
  | JArr [] => Ok ("undefined", JUndefined)
  | JObj o => Ok (toText (prop o "0"), prop o "1")
  | JDate _ => Ok ("undefined", JUndefined)
  | _ => Throw (TypeError "Iterator value is not an entry object")
  end.

Fixpoint entriesOf (vs : list JsValue) : Result (list (string * JsValue)) :=
  match vs with
  | [] => Ok []
  | v :: rest =>
      e ← entryOf v;
      es ← entriesOf rest;
      mret (e :: es)
  end.

(** An iterable of entries, such as a [Map], is represented by the array
    of its entries [[key, value]]. *)
Definition entriesValue (es : list (string * JsValue)) : JsValue :=
  JArr ((fun e => JArr [JStr e.1; e.2]) <$> es).

(** [Object.fromEntries(v)]: of two entries with the same key the later
    one wins. A plain object is an object without an iterator, and so are
    a number, a boolean and a date; [null] and [undefined] are refused
    first. The texts of the errors vary with the engine and are abridged. *)
Definition fromEntries (v : JsValue) : Result JsObject :=
  match v with
  | JArr items => es ← entriesOf items; mret (list_to_map (rev es))
  | JStr "" => Ok ∅
  | JStr _ => Throw (TypeError "Iterator value is not an entry object")
  | JUndefined | JNull => Throw (notIterable "undefined")
  | JBool _ => Throw (notIterable "boolean")
  | JNum _ => Throw (notIterable "number")
  | JDate _ | JObj _ => Throw (notIterable "object")
  end.

Section Handlers.

Variable service : Service.

Definition handle (h : Handler) (req : Request) : Db -> Handled :=
  match h with
  | searchHandler =>
      handling
        (items ← invoke "search" [query req] (search service (query req));
         mret (resJson items))
  | countHandler =>
      handling
        (total ← invoke "count" [query req] (count service (query req));
         mret (resJson (JObj {[ "total" := total ]})))
  | createHandler =>
      handling
        (item ← invoke "create" [body req] (create service (body req));
         mret (resStatusJson 201 item))
  | getByIdHandler =>
      let id := prop (params req) "id" in
      handling
        (item ← invoke "getById" [id] (getById service id);
         if negb (truthy item) then raise notFound
         else mret (resStatusJson 200 item))
  | updateByIdHandler =>
      let id := prop (params req) "id" in
      handling
        (item ← invoke "updateById" [id; body req] (updateById service id (body req));
         if negb (truthy item) then raise notFound
         else mret (resStatusJson 200 item))
  | deleteByIdHandler =>
      let id := prop (params req) "id" in
      handling
        (_ ← invoke "deleteById" [id] (deleteById service id);
         mret (resStatusJson 204
                 (JObj {[ "message" := JStr (model +:+ " is deleted") ]})))
  | getPermissionsHandler =>
      let id := prop (params req) "id" in
      handling
        (role ← invoke "getById" [id] (getById service id);
         if negb (truthy role) then raise notFound
         else
           resources ← invoke "getAllGroupedByType" [] (getAllGroupedByType service);
           roleId ← evaluate (member role "_id");
           roleName ← evaluate (member role "name");
           rolePermissions ← evaluate (member role "permissions");
           permissions ← evaluate (fromEntries rolePermissions);
           mret (resStatusJson 200 (JObj (list_to_map
             [ ("roleId", roleId);
               ("roleName", roleName);
               ("resourcesByType", resources);
               ("permissions", JObj permissions) ]))))
  | updatePermissionsHandler =>
      let id := prop (params req) "id" in
      handling
        (permissions ← evaluate (member (body req) "permissions");
         role ← invoke "updateRolePermissions" [id; permissions]
                  (updateRolePermissions service id permissions);
         mret (resStatusJson 200 role))
  end.

End Handlers.

(** The router mounted for the role resource. *)
Definition router (authorize : Request -> option Outcome)
  (validate : Schema -> Source -> Request -> option Outcome)
  (service : Service) (req : Request) (db : Db) : Run Schema Handler :=
  dispatch authorize validate (handle service) routes req db.

End RoleHandlers.

(* ===================================================================== *)
(** * [server.js]: the session routes *)
(* ===================================================================== *)

Module SessionRoutes.
Import Server Handlers.

(** [res.status(code).send(text)]: the body is the text. *)
Definition resStatusSend (code : Z) (text : string) : Outcome :=
  Sent {| status := code; json := JStr text |}.

(** [GET /api/user]. *)
Definition currentUser (req : Request) : Outcome :=
  if negb (truthy (user req)) then resStatusSend 401 "Unauthorized"
  else
    let user :=
      restWithout "accessTokenIV" (restWithout "accessToken" (ownProperties (user req))) in
    resJson (JObj user).

(** A cookie set on the response, with the options the code passes. *)
Record Cookie : Type := mkCookie {
  cookieName : string;
  cookieValue : string;
  expires : option JsValue;
  httpOnly : bool;
  secure : bool;
  sameSite : string;
}.

(** How a session route ends: a redirect, with the cookies set before it,
    an error handed to the error-handling middleware, or a rejection of
    the [async] callback, after which nothing more is sent. *)
Inductive Reply :=
| Redirect (url : string) (cookies : list Cookie)
| Failed (e : JsError)
| Rejected (e : JsError).

(** [POST /api/register]; [registerUser] is the one of [auth]. *)
Definition register (registerUser : JsValue -> Svc JsValue) (req : Request)
  : Db -> Handled :=
  handling
    (email ← evaluate (destructure (body req) "email");
     password ← evaluate (destructure (body req) "password");
     let credentials := JObj (list_to_map [ ("email", email); ("password", password) ]) in
     newUser ← invoke "registerUser" [credentials] (registerUser credentials);
     userId ← evaluate (member newUser "_id");
     mret (resStatusJson 201 (JObj (list_to_map
       [ ("message", JStr "User registered successfully"); ("userId", userId) ])))).

(** [v?.k]. *)
Definition optional (v : JsValue) (k : string) : JsValue :=
  match v with
  | JObj o => prop o k
  | _ => JUndefined
  end.

Section Logout.

Variable clientHost : string.

(** [req.logout] and [req.session.destroy] hand an error, or none, to
    their callbacks; [clearAuthInfo] is the one of [auth]. *)
Variable logoutError : option JsError.
Variable destroyError : option JsError.
Variable clearAuthInfo : JsValue -> Svc JsValue.

(** [GET /api/logout]. The components of the result: how the route ends,
    the call of [clearAuthInfo] if it came to it, the session ([None]
    once destroyed) and the store. *)
Definition logout (req : Request) (session : option JsObject) (db : Db)
  : Reply * list (string * list JsValue) * option JsObject * Db :=
  let userId := optional (user req) "_id" in
  match logoutError with
  | Some e => (Failed e, [], session, db)
  | None =>
      let session' := if destroyError is Some _ then session else None in
      let cleared :=
        {| cookieName := "userId"; cookieValue := "";
           expires := Some (JDate (JNum 0));
           httpOnly := true; secure := true; sameSite := "lax" |} in
      match clearAuthInfo userId db with
      | (Ok _, db') =>
          (Redirect (clientHost +:+ "/login") [cleared],
           [("clearAuthInfo", [userId])], session', db')
      | (Throw e, db') =>
          (Rejected e, [("clearAuthInfo", [userId])], session', db')
      end
  end.

End Logout.

Section GithubCallback.

(** [config.CLIENT_HOST]. *)
Variable clientHost : string.

(** [req.logIn]; [req.sessionID]. *)
Variable logIn : JsValue -> option JsError.
Variable sessionID : JsValue.

(** [GET /api/auth/github/callback], from the verdict of
    [passport.authenticate] on; the second component is [req.session]
    afterwards. A failure of [req.session.save] is only logged. *)
Definition githubCallback (v : Verdict) (session : JsObject) : Reply * JsObject :=
  let user := authenticated v in
  if bool_decide (is_Some (err v)) || negb (truthy user) then
    (Redirect (clientHost +:+ "/login?error="
               +:+ from_option name "undefined" (err v)) [], session)
  else
    match logIn user with
    | Some _ =>
        (Redirect (clientHost +:+ "/login?error=failed-to-authenticate") [], session)
    | None =>
        match member user "_id" with
        | Throw e => (Failed e, session)
        | Ok userId =>
            let session' :=
              <["sessionId" := sessionID]> (<["userId" := userId]> session) in
            (* next(): the second handler; req.user is the user logged in *)
            match userId with
            | JUndefined =>
                (Failed (TypeError
                   "Cannot read properties of undefined (reading 'toString')"), session')
            | JNull =>
                (Failed (TypeError
                   "Cannot read properties of null (reading 'toString')"), session')
            | _ =>
                (Redirect (clientHost +:+ "/login-success")
                   [ {| cookieName := "userId"; cookieValue := toText userId;
                        expires := None;
                        httpOnly := true; secure := true; sameSite := "lax" |} ],
                 session')
            end
        end
    end.

End GithubCallback.

End SessionRoutes.

(* ===================================================================== *)
(** * Properties *)
(* ===================================================================== *)

(** ** Values *)

Module JsFacts.

Lemma prop_insert_eq (o : JsObject) (k : string) (v : JsValue) :
  prop (<[k := v]> o) k = v.
Proof. unfold prop. by rewrite lookup_insert_eq. Qed.

Lemma prop_singleton_eq (k : string) (v : JsValue) :
  prop ({[ k := v ]} : JsObject) k = v.
Proof. unfold prop. by rewrite lookup_singleton_eq. Qed.

Lemma prop_lookup (o : JsObject) (k : string) (v : JsValue) :
  o !! k = Some v → prop o k = v.
Proof. unfold prop. by intros ->. Qed.

Lemma strictEquals_JStr (v : JsValue) (s : string) :
  strictEquals v (JStr s) = true ↔ v = JStr s.
Proof.
  split; [|intros ->; apply String.eqb_refl].
  destruct v; simpl; try discriminate. by intros ->%String.eqb_eq.
Qed.

End JsFacts.

(** ** The store *)

Module MongoFacts.


Lemma svc_bind_eq {A B} (m : Svc A) (f : A -> Svc B) (db : Db) :
  (m ≫= f) db =
    match m db with
    | (Ok a, db') => f a db'
    | (Throw e, db') => (Throw e, db')
    end.
Proof. reflexivity. Qed.

Lemma withCollection_same (m : ModelName) (db : Db) :
  withCollection m (collectionOf m db) db = db.
Proof. by destruct db, m. Qed.

Lemma call_up {A} (m : ModelName) (k : Collection -> Result A * Collection) (db : Db) :
  outage (collectionOf m db) = None →
  call m k db = ((k (collectionOf m db)).1, withCollection m (k (collectionOf m db)).2 db).
Proof. intros Hup. unfold call. rewrite Hup. by destruct (k _). Qed.

Lemma call_read {A} (m : ModelName) (f : Collection -> Result A) (db : Db) :
  outage (collectionOf m db) = None →
  call m (fun c => (f c, c)) db = (f (collectionOf m db), db).
Proof. intros Hup. rewrite call_up by done. simpl. by rewrite withCollection_same. Qed.

Lemma call_outage {A} (m : ModelName) (k : Collection -> Result A * Collection) db msg :
  outage (collectionOf m db) = Some msg →
  call m k db = (Throw (MongoError msg), db).
Proof. intros Hdown. unfold call. by rewrite Hdown. Qed.

Lemma findById_up m id db :
  outage (collectionOf m db) = None →
  findById m id db = (Ok (orNull (List.find (hasId id) (docs (collectionOf m db)))), db).
Proof. intros Hup. unfold findById. by rewrite call_read. Qed.

Lemma findOne_up m filter db :
  outage (collectionOf m db) = None →
  findOne m filter db =
    (Ok (orNull (List.find (matchesFilter filter) (docs (collectionOf m db)))), db).
Proof. intros Hup. unfold findOne. by rewrite call_read. Qed.

Lemma find_agree {A} (f g : A -> bool) (l : list A) :
  (∀ a, f a = g a) → List.find f l = List.find g l.
Proof.
  intros Hfg. induction l as [|a l IH]; [done|]. simpl. by rewrite Hfg, IH.
Qed.


Lemma matchesFilter_singleton k v d :
  matchesFilter {[ k := v ]} d = strictEquals (prop d k) v.
Proof.
  unfold matchesFilter. rewrite map_to_list_singleton. simpl. apply andb_true_r.
Qed.

(** An update touches one document and keeps the others in place. *)
Lemma alterFirst_split id f ds e :
  List.find (hasId id) ds = Some e →
  ∃ pre post : list JsObject,
    ds = (pre ++ e :: post)%list ∧ alterFirst id f ds = (pre ++ f e :: post)%list.
Proof.
  induction ds as [|d ds IH]; simpl; [done|].
  destruct (hasId id d) eqn:Hd.
  - intros [= ->]. by exists [], ds.
  - intros Hfind. destruct (IH Hfind) as (pre & post & -> & ->).
    by exists (d :: pre), post.
Qed.

Lemma alterFirst_absent id f ds :
  List.find (hasId id) ds = None → alterFirst id f ds = ds.
Proof.
  induction ds as [|d ds IH]; simpl; [done|].
  destruct (hasId id d); [done|]. intros Hnone. by rewrite IH.
Qed.

End MongoFacts.

(** ** The repository service *)

Module RepositoryFacts.
Import RepositoryService MongoFacts Server.

(** The message of the [TypeError] raised by reading [k] of [null]. *)
Definition nullRead (k : string) : string :=
  "Cannot read properties of null (reading '" +:+ k +:+ "')".

(** The value a payload carries for a field; [undefined] when it has none. *)
Definition field (payload : JsValue) (k : string) : JsValue :=
  prop (ownProperties payload) k.

Definition missingOrEmpty (v : JsValue) : Prop :=
  v = JUndefined ∨ v = JNull ∨ v = JStr "".

Definition hasFullName (s : string) (d : JsObject) : bool :=
  strictEquals (prop d "full_name") (JStr s).

(** A service call rejects with an error that carries status 400. *)
Definition rejects400 {A} (r : Result A * Db) : Prop :=
  ∃ e, r.1 = Throw e ∧ HTTPStatus e = Some 400.

(** What a mirrored field holds after a sync: the value of the response,
    as a [Date] for the two timestamps. *)
Definition mirror (k : string) (r : JsObject) : JsValue :=
  if bool_decide (k = "updated_at" ∨ k = "pushed_at") then JDate (prop r k) else prop r k.






(** *** Sample data *)

Definition octoDemo : JsObject :=
  list_to_map
    [ ("_id", JStr "oid:0"); ("id", JNum 42); ("node_id", JStr "R_42");
      ("name", JStr "demo"); ("full_name", JStr "octo/demo");
      ("owner", JObj {[ "login" := JStr "octo" ]});
      ("description", JStr "old"); ("stargazers_count", JNum 1) ].

Definition octoUser : JsObject :=
  list_to_map
    [ ("_id", JStr "u1"); ("username", JStr "octo");
      ("accessToken", JStr "c1ph3r"); ("accessTokenIV", JStr "iv") ].

Definition sampleDb : Db :=
  {| users := {| docs := [octoUser]; nextId := 1; outage := None |};
     repositories := {| docs := [octoDemo]; nextId := 1; outage := None |} |}.

Definition unreachableDb : Db :=
  {| users := {| docs := [octoUser]; nextId := 1; outage := None |};
     repositories :=
       {| docs := [octoDemo]; nextId := 1; outage := Some "connection refused" |} |}.

Definition octoDemoQuery : JsValue :=
  JObj (list_to_map [ ("username", JStr "octo"); ("repository", JStr "demo") ]).

(** A response of the GitHub API for the repository with id [n]. *)
Definition githubResponse (n : Z) : JsObject :=
  list_to_map
    [ ("id", JNum n); ("node_id", JStr "R_new"); ("name", JStr "renamed");
      ("full_name", JStr "octo/renamed");
      ("owner", JObj {[ "login" := JStr "octo" ]});
      ("license", JObj {[ "key" := JStr "mit" ]});
      ("description", JStr "new"); ("stargazers_count", JNum 7);
      ("updated_at", JStr "2024-05-01T00:00:00Z") ].

Example getById_present :
  getById (JStr "oid:0") sampleDb = (Ok (JObj octoDemo), sampleDb).
Proof. reflexivity. Qed.

Example search_present :
  search octoDemoQuery sampleDb = (Ok (JObj octoDemo), sampleDb).
Proof. reflexivity. Qed.

Example search_no_match :
  search (JObj (list_to_map [ ("username", JStr "octo"); ("repository", JStr "none") ]))
    sampleDb = (Ok JNull, sampleDb).
Proof. reflexivity. Qed.

Example search_without_payload :
  search JUndefined sampleDb
  = (Throw (AppError "Failed to search repository" "Bad Request" (Some 400)), sampleDb).
Proof. reflexivity. Qed.

(** *** [getById] *)

(** C8. For an id that no repository document carries, [getById] rejects
    with an [AppError]: with the store answering, [findById] resolves to
    [null] and reading [item._id] for the log line throws, which the
    [catch] wraps. The error carries status 500 and is answered with 500 by
    the error-handling middleware; the service neither resolves to [null]
    nor raises a 404. *)
Theorem getById_missing (id : JsValue) (db : Db) :
  List.find (hasId id) (docs (repositories db)) = None →
  let e := AppError "Failed to get repository"
             (default (nullRead "_id") (outage (repositories db))) None in
  getById id db = (Throw e, db)
  ∧ HTTPStatus e = Some 500
  ∧ ∀ handleError, status <$> defineErrorHandlingMiddleware handleError e = Some 500.
Proof.
  intros Hnone e. split; [|done].
  unfold getById, tryCatch. rewrite svc_bind_eq.
  destruct (outage (repositories db)) as [msg|] eqn:Hout.
  - unfold findById. by rewrite (call_outage RepositoryModel _ db msg).
  - rewrite findById_up by done. simpl. by rewrite Hnone.
Qed.

Lemma getById_missing_witness :
  getById (JStr "oid:7") sampleDb
  = (Throw (AppError "Failed to get repository" (nullRead "_id") None), sampleDb).
Proof. apply (getById_missing (JStr "oid:7") sampleDb). reflexivity. Defined.

(** *** [search] *)

(** The claim C9 as stated fails: with both fields present, a rejected
    store call is also turned into an [AppError] with status 400. *)
Lemma search_rejects_on_outage :
  ¬ (rejects400 (search octoDemoQuery unreachableDb)
     ↔ missingOrEmpty (field octoDemoQuery "username")
       ∨ missingOrEmpty (field octoDemoQuery "repository")).
Proof.
  intros [Honly _].
  destruct Honly as [Hm|Hm].
  - eexists. split; reflexivity.
  - destruct Hm as [Hm|[Hm|Hm]]; discriminate Hm.
  - destruct Hm as [Hm|[Hm|Hm]]; discriminate Hm.
Qed.

(** C9, amended. [search] rejects with an [AppError] of status 400 when the
    username or the repository of the payload is falsy (missing or empty),
    and also when the store call rejects; otherwise it resolves to the
    first document whose [full_name] is [username/repository], or to
    [null] when there is none. The store is left as it was. *)
Theorem search_characterised (searchPayload : JsValue) (db : Db) :
  let username := field searchPayload "username" in
  let repository := field searchPayload "repository" in
  search searchPayload db =
    if negb (truthy username) || negb (truthy repository) then
      (Throw (AppError "Failed to search repository" "Bad Request" (Some 400)), db)
    else
      match outage (repositories db) with
      | Some msg => (Throw (AppError "Failed to search repository" msg (Some 400)), db)
      | None =>
          (Ok (orNull (List.find
                 (hasFullName (toText username +:+ "/" +:+ toText repository))
                 (docs (repositories db)))), db)
      end.
Proof.
  intros username repository.
  assert (Hd : ∀ k, destructure
            match searchPayload with JUndefined | JNull => JObj ∅ | v => v end k
          = Ok (field searchPayload k)).
  { intros k. by destruct searchPayload. }
  unfold search, tryCatch. rewrite svc_bind_eq. unfold lift at 1. rewrite Hd.
  rewrite svc_bind_eq. unfold lift at 1. rewrite Hd.
  fold username repository.
  destruct (truthy username) eqn:Hu; simpl; [|done].
  destruct (truthy repository) eqn:Hr; simpl; [|done].
  rewrite svc_bind_eq.
  destruct (outage (repositories db)) as [msg|] eqn:Hout.
  - unfold findOne. by rewrite (call_outage RepositoryModel _ db msg).
  - rewrite findOne_up by done. simpl. do 3 f_equal.
    apply find_agree. intros d. apply matchesFilter_singleton.
Qed.

(** *** [deleteById] *)

Lemma deleteById_up (id : JsValue) (db : Db) :
  outage (repositories db) = None →
  deleteById id db =
    (Ok true,
     {| users := users db;
        repositories :=
          {| docs := removeFirst id (docs (repositories db));
             nextId := nextId (repositories db); outage := None |} |}).
Proof.
  intros Hup. unfold deleteById, tryCatch, findByIdAndDelete.
  rewrite svc_bind_eq, call_up by done. simpl. by rewrite Hup.
Qed.

Lemma removeFirst_absent id ds :
  List.find (hasId id) ds = None → removeFirst id ds = ds.
Proof.
  induction ds as [|d ds IH]; simpl; [done|].
  destruct (hasId id d); [done|]. intros Hnone. by rewrite IH.
Qed.

(** *** [fetchGitHubRepoDetails] *)

Lemma mapSelected_object (r : JsObject) :
  ∃ data, mapSelectedGithubResponseToSchema (JObj r) = Ok data
    ∧ (∀ k, k ∈ selectedFields → data !! k = Some (mirror k r))
    ∧ (∀ k, k ∉ selectedFields → data !! k = None).
Proof.
  eexists. split; [reflexivity|]. split.
  - intros k Hk. unfold selectedFields in Hk.
    repeat (apply elem_of_cons in Hk as [->|Hk]; [reflexivity|]).
    by apply elem_of_nil in Hk.
  - intros k Hk. by apply not_elem_of_list_to_map_1.
Qed.






Lemma updateById_up (id : JsValue) (data : JsObject) (db : Db) :
  outage (repositories db) = None →
  updateById id data db =
    (Ok (orNull (setFields data <$> List.find (hasId id) (docs (repositories db)))),
     {| users := users db;
        repositories :=
          {| docs := alterFirst id (setFields data) (docs (repositories db));
             nextId := nextId (repositories db); outage := None |} |}).
Proof.
  intros Hup. unfold updateById, tryCatch, findByIdAndUpdate, updateFirst.
  rewrite svc_bind_eq, call_up by done. simpl. by rewrite Hup.
Qed.

Lemma create_up (data : JsObject) (db : Db) :
  outage (repositories db) = None →
  let created := <["_id" := objectId (nextId (repositories db))]> data in
  create data db =
    (Ok created,
     {| users := users db;
        repositories :=
          {| docs := docs (repositories db) ++ [created];
             nextId := S (nextId (repositories db)); outage := None |} |}).
Proof.
  intros Hup created. unfold create, tryCatch, save.
  rewrite svc_bind_eq, call_up by done. simpl. by rewrite Hup.
Qed.

Section FetchFacts.

Variable decryptToken : JsValue -> JsValue -> Result string.
Variable fetchRepoDetails : string -> string -> string -> Result JsValue.

Local Abbreviation fetch := (fetchGitHubRepoDetails decryptToken fetchRepoDetails).

(** Once the user is found, the token decrypted and the response fetched,
    the service branches on the document with the provider id. *)
Lemma fetch_branches owner repo session db u token r :
  outage (users db) = None →
  outage (repositories db) = None →
  List.find (hasId (prop session "_id")) (docs (users db)) = Some u →
  decryptToken (prop u "accessToken") (prop u "accessTokenIV") = Ok token →
  fetchRepoDetails owner repo token = Ok (JObj r) →
  fetch owner repo (JObj session) db =
    tryCatch
      (match List.find (matchesFilter {[ "id" := prop r "id" ]})
               (docs (repositories db)) with
       | Some e =>
           data ← lift (mapSelectedGithubResponseToSchema (JObj r));
           updateById (prop e "_id") data
       | None =>
           data ← lift (mapGithubResponseToSchema (JObj r));
           repository ← create data;
           mret (JObj repository)
       end)
      (fun error =>
         throw (AppError "Failed to fetch repository details" (message error) None)) db.
Proof.
  intros Hu Hr Hfind Htok Hresp.
  unfold fetchGitHubRepoDetails, tryCatch.
  rewrite svc_bind_eq. unfold lift at 1. cbn [destructure].
  rewrite svc_bind_eq, (findById_up UserModel) by done.
  cbn [collectionOf]. rewrite Hfind. cbn [orNull].
  rewrite svc_bind_eq. unfold lift at 1. cbn [destructure].
  rewrite svc_bind_eq. unfold lift at 1. cbn [destructure].
  rewrite svc_bind_eq. unfold lift at 1. rewrite Htok.
  rewrite svc_bind_eq. unfold lift at 1. rewrite Hresp.
  rewrite svc_bind_eq. unfold lift at 1. cbn [destructure].
  rewrite svc_bind_eq, (findOne_up RepositoryModel) by done.
  cbn [collectionOf].
  destruct (List.find _ (docs (repositories db))) as [e|]; cbn [orNull truthy]; [|done].
  rewrite !svc_bind_eq.
  destruct (lift (mapSelectedGithubResponseToSchema (JObj r)) db)
    as [[data|error] db'] eqn:Hmap; [|done].
  unfold lift in Hmap |- *. injection Hmap as Hmap <-. cbn [member].
  rewrite !svc_bind_eq. by destruct (updateById (prop e "_id") data db) as [[?|?] ?].
Qed.



End FetchFacts.


Definition sampleDecrypt (accessToken accessTokenIV : JsValue) : Result string :=
  Ok "gho_token".

Definition sampleFetch (n : Z) (owner repo token : string) : Result JsValue :=
  Ok (JObj (githubResponse n)).

(** On the sample store the response for id 42 finds the stored document:
    its description and star count are overwritten, its names are not. *)
Example fetch_updates_existing :
  (fetchGitHubRepoDetails sampleDecrypt (sampleFetch 42) "octo" "demo"
     (JObj octoUser) sampleDb).1
  = Ok (JObj (list_to_map
      [ ("description", JStr "new"); ("stargazers_count", JNum 7);
        ("updated_at", JDate (JStr "2024-05-01T00:00:00Z"));
        ("pushed_at", JDate JUndefined);
        ("homepage", JUndefined); ("size", JUndefined);
        ("watchers_count", JUndefined); ("language", JUndefined);
        ("languages", JUndefined); ("forks_count", JUndefined);
        ("archived", JUndefined); ("disabled", JUndefined);
        ("open_issues_count", JUndefined); ("topics", JUndefined);
        ("_id", JStr "oid:0"); ("id", JNum 42); ("node_id", JStr "R_42");
        ("name", JStr "demo"); ("full_name", JStr "octo/demo");
        ("owner", JObj {[ "login" := JStr "octo" ]}) ])).
Proof. vm_compute. reflexivity. Qed.

(** The response for id 43 finds none: a second document is stored. *)
Example fetch_creates_missing :
  let run := fetchGitHubRepoDetails sampleDecrypt (sampleFetch 43) "octo" "demo"
               (JObj octoUser) sampleDb in
  member (default JNull (Ok_value run.1)) "full_name" = Ok (JStr "octo/renamed")
  ∧ member (default JNull (Ok_value run.1)) "_id" = Ok (JStr "oid:1")
  ∧ length (docs (repositories run.2)) = 2%nat.
Proof. vm_compute. repeat split. Qed.




End RepositoryFacts.

(** ** Routers *)

Module ExpressFacts.

Section Dispatch.
Context {S H : Type}.
Variable authorize : Request -> option Outcome.
Variable validate : S -> Source -> Request -> option Outcome.
Variable handle : H -> Request -> Db -> Handled.

Local Abbreviation run := (runStack authorize validate handle).
Local Abbreviation route := (dispatch authorize validate handle).

Lemma dispatch_other_verb (r : Route S H) rest req db :
  verb r ≠ method req → route (r :: rest) req db = route rest req db.
Proof. intros Hverb. simpl. by destruct (decide (verb r = method req)). Qed.

Lemma dispatch_other_path (r : Route S H) rest req db :
  matchPath (pattern r) (path req) = None → route (r :: rest) req db = route rest req db.
Proof.
  intros Hpath. simpl. rewrite Hpath. by destruct (decide (verb r = method req)).
Qed.

Lemma dispatch_hit (r : Route S H) rest req db ps :
  verb r = method req →
  matchPath (pattern r) (path req) = Some ps →
  is_Some (result (run (stack r) (withParams ps req) db)) →
  route (r :: rest) req db = run (stack r) (withParams ps req) db.
Proof.
  intros Hverb Hpath [o Ho]. simpl. rewrite Hpath, Ho.
  by destruct (decide (verb r = method req)).
Qed.

(** A stack that ends in a handler never falls through. *)
Lemma runStack_handler_ends layers h req db :
  is_Some (result (run (layers ++ [handler h]) req db)).
Proof.
  induction layers as [|layer layers IH]; [by eexists|].
  destruct layer; simpl; [done | | |by eexists].
  - by destruct (authorize req).
  - by destruct (validate schema source req).
Qed.

End Dispatch.

Lemma matchPath_length (pattern : list Segment) (p : list string) (ps : JsObject) :
  matchPath pattern p = Some ps → length pattern = length p.
Proof.
  revert p ps. induction pattern as [|seg pattern IH]; intros [|x p] ps; simpl; try done.
  - by destruct seg.
  - destruct seg as [s|k].
    + destruct (sameLiteral s x); [|done]. intros Hm. f_equal. by eapply IH.
    + destruct (matchPath pattern p) as [ps'|] eqn:Hm; [|done].
      intros _. f_equal. by eapply IH.
Qed.

Lemma matchPath_shorter (pattern : list Segment) (p : list string) :
  length pattern ≠ length p → matchPath pattern p = None.
Proof.
  intros Hlen. destruct (matchPath pattern p) as [ps|] eqn:Hm; [|done].
  by apply matchPath_length in Hm.
Qed.

End ExpressFacts.

(** ** [server.js] *)

Module ServerFacts.
Import Server MongoFacts.

(** *** The error-handling middleware *)

Lemma message_markTrusted (error : JsError) : message (markTrusted error) = message error.
Proof. unfold markTrusted. by destruct (isTrusted error). Qed.

Lemma HTTPStatus_markTrusted (error : JsError) :
  HTTPStatus (markTrusted error) = HTTPStatus error.
Proof. unfold markTrusted. by destruct (isTrusted error). Qed.

(** A [handleError] that passes the error on as an object with the
    properties the constructor of [AppError] assigns. *)
Definition passOn (e : JsError) : Normalised :=
  {| enumerable :=
       <["name" := JStr (name e)]>
         (from_option (fun code => {[ "HTTPStatus" := JNum code ]}) ∅ (HTTPStatus e));
     normalMessage := JStr (message e) |}.

(** C6. With [handleError] resolving to an error that keeps the message,
    the error-handling middleware answers every error with a JSON object
    whose [errorMessage] is the message of the error; the status of the
    response is the [HTTPStatus] of the error when it has one, and 500
    otherwise. The [HTTPStatus] of an error is the status code of an error
    response, between 400 and 599. *)
Theorem errorHandling_response (handleError : JsError -> Normalised) (error : JsError) :
  (∀ e, normalMessage (handleError e) = JStr (message e)) →
  (∀ code, HTTPStatus error = Some code → 400 ≤ code ≤ 599) →
  ∃ body : JsObject,
    defineErrorHandlingMiddleware handleError error
    = Some {| status := default 500 (HTTPStatus error); json := JObj body |}
    ∧ body !! "errorMessage" = Some (JStr (message error)).
Proof.
  intros Hmessage Hstatus. unfold defineErrorHandlingMiddleware.
  rewrite HTTPStatus_markTrusted.
  assert (Hcode : orDefault (HTTPStatus error) 500 = default 500 (HTTPStatus error)
                  ∧ validStatus (default 500 (HTTPStatus error)) = true).
  { destruct (HTTPStatus error) as [code|]; [|done].
    specialize (Hstatus code eq_refl). simpl. split.
    - destruct (Z.eqb_spec code 0); [lia | done].
    - unfold validStatus. apply andb_true_iff. split; apply Z.leb_le; lia. }
  destruct Hcode as [-> ->]. eexists. split; [reflexivity|].
  by rewrite lookup_insert_eq, Hmessage, message_markTrusted.
Qed.

Lemma errorHandling_response_witness :
  (∃ body : JsObject,
     defineErrorHandlingMiddleware passOn
       (AppError "Role not found" "Role not found" (Some 404))
     = Some {| status := 404; json := JObj body |}
     ∧ body !! "errorMessage" = Some (JStr "Role not found"))
  ∧ (∃ body : JsObject,
       defineErrorHandlingMiddleware passOn (TypeError "item is null")
       = Some {| status := 500; json := JObj body |}
       ∧ body !! "errorMessage" = Some (JStr "item is null")).
Proof.
  split.
  - apply (errorHandling_response passOn
             (AppError "Role not found" "Role not found" (Some 404)));
      [reflexivity | intros code [= <-]; lia].
  - apply (errorHandling_response passOn (TypeError "item is null"));
      [reflexivity | intros code Hcode; discriminate Hcode].
Defined.

(** With an [HTTPStatus] that is no status code at all the middleware
    does not follow the error: the default idiom
    [error?.HTTPStatus || 500] takes a status of zero for an absent one,
    and with any other status that the server refuses no response is
    sent. No call of [AppError] in the sources passes such a status. *)
Lemma errorHandling_refused_status (handleError : JsError -> Normalised) (error : JsError)
    (code : Z) :
  HTTPStatus error = Some code →
  (code = 0 → status <$> defineErrorHandlingMiddleware handleError error = Some 500)
  ∧ (code ≠ 0 → ¬ 100 ≤ code ≤ 999 →
     defineErrorHandlingMiddleware handleError error = None).
Proof.
  intros Hcode. unfold defineErrorHandlingMiddleware.
  rewrite HTTPStatus_markTrusted, Hcode. simpl. split.
  - by intros ->.
  - intros Hnonzero Hrange. destruct (Z.eqb_spec code 0); [done|].
    assert (validStatus code = false) as ->; [|done].
    unfold validStatus. apply andb_false_iff.
    destruct (Z.leb_spec 100 code); [right | by left].
    apply Z.leb_gt. lia.
Qed.

(** *** [POST /api/login] *)

Definition alice : JsObject :=
  list_to_map
    [ ("_id", JStr "u1"); ("username", JStr "alice"); ("password", JStr "hash(pw1)") ].

Definition credentials : Db :=
  {| users := {| docs := [alice]; nextId := 1; outage := None |};
     repositories := {| docs := []; nextId := 0; outage := None |} |}.

(** A stand-in for [bcrypt.compare]. *)
Definition toyCompare (password hash : string) : bool :=
  String.eqb ("hash(" +:+ password +:+ ")") hash.

Example login_alice :
  login toyCompare (fun _ => None) "alice" "pw1" credentials
  = resJson (JObj (list_to_map
      [ ("message", JStr "Login successful");
        ("user", JObj (list_to_map [ ("_id", JStr "u1"); ("username", JStr "alice") ])) ])).
Proof. reflexivity. Qed.

Example login_alice_wrong :
  login toyCompare (fun _ => None) "alice" "wrong" credentials
  = resStatusJson 401 (JObj {[ "message" := JStr "Incorrect password" ]}).
Proof. reflexivity. Qed.

(** The body of a successful login: the message and the user without its
    [password]. *)
Definition loginBody (u : JsObject) : JsObject :=
  list_to_map
    [ ("message", JStr "Login successful"); ("user", JObj (delete "password" u)) ].

Lemma loginCallback_success logIn (u : JsObject) (i : JsValue) :
  logIn (JObj u) = None →
  loginCallback logIn {| err := None; authenticated := JObj u; info := i |}
  = resJson (JObj (loginBody u)).
Proof. intros Hin. unfold loginCallback. simpl. by rewrite Hin. Qed.

(** C4. A login with a valid username and password is answered with a
    JSON body that holds the user object without its [password] property,
    every other property of the user being kept; a login with a wrong
    password is answered with status 401. The same holds of the callback
    for whatever user object the strategy hands over. *)
Theorem login_response (compare : string -> string -> bool)
    (logIn : JsValue -> option JsError) (username password : string)
    (db : Db) (u : JsObject) :
  outage (users db) = None →
  List.find (matchesFilter {[ "username" := JStr username ]}) (docs (users db)) = Some u →
  (compare password (toText (prop u "password")) = true →
   logIn (JObj u) = None →
   ∃ body stripped : JsObject,
     login compare logIn username password db = Sent {| status := 200; json := JObj body |}
     ∧ body !! "user" = Some (JObj stripped)
     ∧ stripped !! "password" = None
     ∧ body !! "password" = None
     ∧ ∀ k, k ≠ "password" → stripped !! k = u !! k)
  ∧ (compare password (toText (prop u "password")) = false →
     ∃ body, login compare logIn username password db
             = Sent {| status := 401; json := body |}).
Proof.
  intros Hup Hfind. unfold login, localStrategy.
  rewrite svc_bind_eq, (findOne_up UserModel) by done.
  cbn [collectionOf]. rewrite Hfind. cbn [orNull]. split.
  - intros Hvalid Hin. rewrite Hvalid. cbn [mret Svc_ret].
    rewrite loginCallback_success by done.
    exists (loginBody u), (delete "password" u). repeat split.
    + apply lookup_delete_eq.
    + intros k Hk. by apply lookup_delete_ne.
  - intros Hwrong. rewrite Hwrong. by eexists.
Qed.

Lemma login_response_witness :
  (∃ body stripped : JsObject,
     login toyCompare (fun _ => None) "alice" "pw1" credentials
     = Sent {| status := 200; json := JObj body |}
     ∧ body !! "user" = Some (JObj stripped)
     ∧ stripped !! "password" = None
     ∧ body !! "password" = None
     ∧ ∀ k, k ≠ "password" → stripped !! k = alice !! k)
  ∧ ∃ body, login toyCompare (fun _ => None) "alice" "wrong" credentials
            = Sent {| status := 401; json := body |}.
Proof.
  split.
  - apply (login_response toyCompare (fun _ => None) "alice" "pw1" credentials alice);
      reflexivity.
  - apply (login_response toyCompare (fun _ => None) "alice" "wrong" credentials alice);
      reflexivity.
Defined.

End ServerFacts.

(** ** The user domain *)

Module UserFacts.
Import UserSchema UserApi Server JsFacts MongoFacts ExpressFacts.

Definition ann : JsObject :=
  list_to_map [ ("_id", JStr "a11"); ("username", JStr "ann") ].

Definition ben : JsObject :=
  list_to_map [ ("_id", JStr "b22"); ("username", JStr "ben") ].

Definition people : Db :=
  {| users := {| docs := [ann; ben]; nextId := 2; outage := None |};
     repositories := {| docs := []; nextId := 0; outage := None |} |}.

Definition noon : JsValue := JNum 1700000000000.

(** *** [followUser] *)

Definition followTwice (a b : JsValue) : Svc JsValue :=
  _ ← UserService.followUser noon a b;
  UserService.followUser noon a b.

Example follow_once :
  let db := (UserService.followUser noon (JStr "a11") (JStr "b22") people).2 in
  following (JStr "a11") (JStr "b22") (users db) = [followEntry (JStr "b22") noon]
  ∧ followers (JStr "a11") (JStr "b22") (users db) = [followEntry (JStr "a11") noon].
Proof. split; reflexivity. Qed.

Lemma hasId_pushTo id field item d :
  field ≠ "_id" → hasId id (pushTo field item d) = hasId id d.
Proof.
  intros Hfield. unfold hasId, pushTo, prop. by rewrite lookup_insert_ne.
Qed.

Lemma hasId_distinct (a b : string) d :
  a ≠ b → hasId (JStr a) d = true → hasId (JStr b) d = false.
Proof.
  intros Hab Ha. apply strictEquals_JStr in Ha.
  apply not_true_is_false. intros Hb. apply strictEquals_JStr in Hb. congruence.
Qed.

Lemma find_alterFirst_same id f ds :
  (∀ d, hasId id (f d) = hasId id d) →
  List.find (hasId id) (alterFirst id f ds) = f <$> List.find (hasId id) ds.
Proof.
  intros Hf. induction ds as [|d ds IH]; simpl; [done|].
  destruct (hasId id d) eqn:Hd; simpl.
  - by rewrite Hf, Hd.
  - by rewrite Hd.
Qed.

Lemma find_alterFirst_other (a b : string) f ds :
  a ≠ b →
  (∀ d, hasId (JStr a) (f d) = hasId (JStr a) d) →
  List.find (hasId (JStr a)) (alterFirst (JStr b) f ds) = List.find (hasId (JStr a)) ds.
Proof.
  intros Hab Hf. induction ds as [|d ds IH]; simpl; [done|].
  destruct (hasId (JStr b) d) eqn:Hb; simpl.
  - rewrite Hf. destruct (hasId (JStr a) d) eqn:Ha; [|done].
    apply (hasId_distinct a b) in Ha; congruence.
  - by rewrite IH.
Qed.

Lemma edges_pushTo (b : string) date d :
  edges "csFollowing" (JStr b) (pushTo "csFollowing" (followEntry (JStr b) date) d)
  = (edges "csFollowing" (JStr b) d ++ [followEntry (JStr b) date])%list.
Proof.
  unfold edges, pushTo. rewrite prop_insert_eq. cbn [elements].
  rewrite List.filter_app. f_equal. simpl.
  unfold pointsTo, followEntry. cbn [ownProperties].
  rewrite (prop_lookup _ "_id" (JStr b)) by reflexivity.
  simpl. by rewrite String.eqb_refl.
Qed.

(** Every call for distinct users, the caller being stored, adds one more
    entry for the target to the caller's [csFollowing], whatever is there
    already. *)
Lemma followUser_appends (date : JsValue) (a b : string) (db : Db) (d : JsObject) :
  a ≠ b →
  outage (users db) = None →
  List.find (hasId (JStr a)) (docs (users db)) = Some d →
  following (JStr a) (JStr b) (users (UserService.followUser date (JStr a) (JStr b) db).2)
  = (following (JStr a) (JStr b) (users db) ++ [followEntry (JStr b) date])%list.
Proof.
  intros Hab Hup Hfind. unfold UserService.followUser. cbn [strictEquals].
  apply String.eqb_neq in Hab as Hneq. rewrite Hneq.
  rewrite svc_bind_eq. unfold updateFirst at 1. rewrite call_up by done.
  cbn [fst snd]. rewrite svc_bind_eq. unfold updateFirst at 1.
  rewrite call_up by (by destruct db). cbn [fst snd mret Svc_ret].
  unfold following. destruct db as [us rs]. cbn [collectionOf withCollection users docs] in *.
  rewrite (find_alterFirst_other a b) by (done || intros; by apply hasId_pushTo).
  rewrite find_alterFirst_same by (intros; by apply hasId_pushTo).
  rewrite Hfind. cbn [fmap option_fmap option_map]. apply edges_pushTo.
Qed.

(** C1 on the service as the specification describes the source: after
    two calls for the same pair, the caller's [csFollowing] holds two
    entries for the target and the target's [csFollowers] two entries for
    the caller. *)
Theorem followUser_twice_duplicates :
  let run := followTwice (JStr "a11") (JStr "b22") people in
  run.1 = Ok (JBool true)
  ∧ following (JStr "a11") (JStr "b22") (users run.2)
    = [followEntry (JStr "b22") noon; followEntry (JStr "b22") noon]
  ∧ followers (JStr "a11") (JStr "b22") (users run.2)
    = [followEntry (JStr "a11") noon; followEntry (JStr "a11") noon].
Proof. repeat split. Qed.

(** *** The router *)

Section Router.

Variable validate : Schema -> Source -> Request -> option Outcome.
Variable service : Service.

Definition cannotFollowYourself : JsError :=
  AppError "Cannot follow yourself" "Cannot follow yourself" (Some 400).

(** C2. For an authenticated user whose id is the id of the path,
    [GET /:id/follow] ends in [next(error)] with the error 'Cannot follow
    yourself' of status 400, a validation error that the error-handling
    middleware answers with 400; the handler invokes no service operation,
    [followUser] in particular, and the store is untouched. *)
Theorem follow_yourself_rejected (handleError : JsError -> Normalised)
    (req : Request) (db : Db) (id : string) :
  method req = GET →
  path req = [id; "follow"] →
  member (user req) "_id" = Ok (JStr id) →
  validate idSchema InParams (withParams {[ "id" := JStr id ]} req) = None →
  let run := router validate service req db in
  result run = Some (NextError cannotFollowYourself)
  ∧ message cannotFollowYourself = "Cannot follow yourself"
  ∧ errorKind cannotFollowYourself = ValidationError
  ∧ (∃ response, result run ≫= surface handleError = Some response
                 ∧ status response = 400)
  ∧ trace run = [Logged; Validated idSchema InParams true; Entered followHandler]
  ∧ (∀ operation args, Invoked operation args ∉ trace run)
  ∧ store run = db.
Proof.
  intros Hmethod Hpath Huser Hvalid run.
  assert (Hrun : run =
    {| trace := [Logged; Validated idSchema InParams true; Entered followHandler];
       result := Some (NextError cannotFollowYourself);
       store := db |}).
  { subst run. unfold router, routes.
    rewrite 2!dispatch_other_path
      by (cbn [pattern]; rewrite Hpath; by apply matchPath_shorter).
    change ({[ "id" := JStr id ]} : JsObject)
      with (<["id" := JStr id]> (∅ : JsObject)) in Hvalid.
    assert (Hmatch : matchPath [Param "id"; Lit "follow"] (path req)
                     = Some (<["id" := JStr id]> (∅ : JsObject))).
    { by rewrite Hpath. }
    rewrite (dispatch_hit _ _ _ _ _ _ _ (<["id" := JStr id]> ∅))
      by (cbn [verb pattern stack];
          first [ by rewrite Hmethod | exact Hmatch
                | apply (runStack_handler_ends _ _ _ [_; _]) ]).
    cbn [stack runStack]. rewrite Hvalid. cbn [emit trace result store].
    unfold handle. cbn [user withParams params]. rewrite Huser.
    rewrite prop_insert_eq. cbn [strictEquals].
    by rewrite String.eqb_refl. }
  rewrite Hrun. cbn [trace result store]. repeat split.
  - eexists. split; reflexivity.
  - intros operation args Hin.
    repeat (apply elem_of_cons in Hin as [Hin|Hin]; [discriminate Hin|]).
    by apply elem_of_nil in Hin.
Qed.

Definition deleted : Response :=
  {| status := 204; json := JObj {[ "message" := JStr "model is deleted" ]} |}.

Lemma delete_route_run (req : Request) (db : Db) (id : string) :
  method req = DELETE →
  path req = [id] →
  validate idSchema InParams (withParams {[ "id" := JStr id ]} req) = None →
  router validate service req db =
    emit Logged (emit (Validated idSchema InParams true)
      (let r := handle service deleteByIdHandler (withParams {[ "id" := JStr id ]} req) db in
       {| trace := Entered deleteByIdHandler :: map (fun c => Invoked c.1 c.2) (invoked r);
          result := Some (outcome r);
          store := after r |})).
Proof.
  intros Hmethod Hpath Hvalid.
  unfold router, routes.
  rewrite 6!dispatch_other_verb by (cbn [verb]; by rewrite Hmethod).
  change ({[ "id" := JStr id ]} : JsObject)
    with (<["id" := JStr id]> (∅ : JsObject)) in Hvalid |- *.
  assert (Hmatch : matchPath [Param "id"] (path req)
                   = Some (<["id" := JStr id]> (∅ : JsObject))).
  { by rewrite Hpath. }
  rewrite (dispatch_hit _ _ _ _ _ _ _ (<["id" := JStr id]> ∅))
    by (cbn [verb pattern stack];
        first [ by rewrite Hmethod | exact Hmatch
              | apply (runStack_handler_ends _ _ _ [_; _]) ]).
  cbn [stack runStack]. by rewrite Hvalid.
Qed.

(** C10. For an id that passes the validation of the route,
    [DELETE /:id] on the user resource answers 204 as soon as the
    [deleteById] of the service resolves, whatever it resolves to and
    whatever the store holds; no existence check stands in between, and
    only a rejected call is passed on as an error. The [deleteById] among
    the sources, that of the repository service, resolves to [true]
    whenever the store call does not throw, whether or not a document
    carries the id. *)
Theorem delete_answers_204 (req : Request) (db : Db) (id : string) :
  method req = DELETE →
  path req = [id] →
  validate idSchema InParams (withParams {[ "id" := JStr id ]} req) = None →
  let run := router validate service req db in
  (∀ v db', deleteById service (JStr id) db = (Ok v, db') →
     result run = Some (Sent deleted) ∧ store run = db')
  ∧ (∀ e db', deleteById service (JStr id) db = (Throw e, db') →
       result run = Some (NextError e))
  ∧ (∀ (rid : JsValue) (rdb : Db),
       outage (repositories rdb) = None →
       (RepositoryService.deleteById rid rdb).1 = Ok true).
Proof.
  intros Hmethod Hpath Hvalid run. subst run.
  rewrite (delete_route_run req db id) by done.
  cbn [emit result store]. unfold handle. cbn [params withParams].
  rewrite prop_singleton_eq. unfold awaiting. split; [|split].
  - intros v db' ->. by split.
  - by intros e db' ->.
  - intros rid rdb Hup. by rewrite RepositoryFacts.deleteById_up.
Qed.

End Router.

Definition requestOf (m : Method) (p : list string) (u : JsValue) : Request :=
  {| method := m; path := p; params := ∅; query := JUndefined; body := JUndefined;
     user := u |}.

(** A service over the store: [deleteById] is the one of the sources,
    [followUser] the one modelled above, the other operations resolve to
    [null]. *)
Definition idleService : Service :=
  {| search := fun _ => mret JNull;
     count := fun _ => mret JNull;
     getById := fun _ => mret JNull;
     create := fun _ => mret JNull;
     updateById := fun _ _ => mret JNull;
     deleteById := fun id => b ← RepositoryService.deleteById id; mret (JBool b);
     followUser := UserService.followUser noon |}.

(** Nobody has the id [c33], and the answer is 204 all the same. *)
Lemma delete_answers_204_witness :
  List.find (hasId (JStr "c33")) (docs (users people)) = None
  ∧ result (router (fun _ _ _ => None) idleService
              (requestOf DELETE ["c33"] JUndefined) people)
    = Some (Sent deleted).
Proof.
  split; [reflexivity|].
  destruct (delete_answers_204 (fun _ _ _ => None) idleService
              (requestOf DELETE ["c33"] JUndefined) people "c33"
              eq_refl eq_refl eq_refl) as (Hresolved & _ & _).
  apply (Hresolved (JBool true) people). reflexivity.
Defined.

Lemma follow_yourself_rejected_witness :
  result (router (fun _ _ _ => None) idleService
            (requestOf GET ["a11"; "follow"] (JObj ann)) people)
  = Some (NextError cannotFollowYourself).
Proof.
  apply (follow_yourself_rejected (fun _ _ _ => None) idleService ServerFacts.passOn
           (requestOf GET ["a11"; "follow"] (JObj ann)) people "a11");
    reflexivity.
Defined.

End UserFacts.

(** ** The role router *)

Module RoleFacts.
Import RoleApi ExpressFacts.

(** In a trace, the authorization was checked and granted before the
    handler [h] was entered. *)
Definition grantedBefore (h : Handler) (tr : list (Event Schema Handler)) : Prop :=
  ∃ pre post : list (Event Schema Handler),
    tr = (pre ++ AuthorizationChecked true :: post)%list ∧ Entered h ∈ post.

Lemma grantedBefore_cons ev h tr : grantedBefore h tr → grantedBefore h (ev :: tr).
Proof. intros (pre & post & -> & Hin). by exists (ev :: pre), post. Qed.

Lemma grantedBefore_app_l h tr tr' : grantedBefore h tr → grantedBefore h (tr ++ tr').
Proof.
  intros (pre & post & -> & Hin). exists pre, (post ++ tr')%list. split.
  - by rewrite <- app_assoc.
  - apply elem_of_app. by left.
Qed.

Lemma grantedBefore_app_r h tr tr' : grantedBefore h tr' → grantedBefore h (tr ++ tr').
Proof.
  intros (pre & post & -> & Hin). exists (tr ++ pre)%list, post. split; [|done].
  by rewrite <- app_assoc.
Qed.

Lemma routes_gated : forallb (fun r => gated (stack r)) routes = true.
Proof. reflexivity. Qed.

Section Gate.

Variable authorize : Request -> option Outcome.
Variable validate : Schema -> Source -> Request -> option Outcome.
Variable handle : Handler -> Request -> Db -> Handled.

Local Abbreviation run := (runStack authorize validate handle).
Local Abbreviation route := (dispatch authorize validate handle).

(** One stack: a mutating handler of a gated stack is entered only after
    [isAuthorized] called [next()]. *)
Lemma runStack_gated layers req db h :
  gated layers = true →
  mutating h = true →
  Entered h ∈ trace (run layers req db) →
  authorize req = None ∧ grantedBefore h (trace (run layers req db)).
Proof.
  intros Hgated Hmut. induction layers as [|layer layers IH]; simpl.
  - intros Hin. by apply elem_of_nil in Hin.
  - destruct layer as [| |schema source|h']; simpl in Hgated |- *.
    + intros [Hin|Hin]%elem_of_cons; [discriminate Hin|].
      destruct (IH Hgated Hin) as [Hgrant Hbefore].
      split; [done | by apply grantedBefore_cons].
    + destruct (authorize req) as [o|]; simpl.
      * intros Hin. apply list_elem_of_singleton in Hin. discriminate Hin.
      * intros [Hin|Hin]%elem_of_cons; [discriminate Hin|].
        split; [done|]. by exists [], (trace (run layers req db)).
    + destruct (validate schema source req) as [o|]; simpl.
      * intros Hin. apply list_elem_of_singleton in Hin. discriminate Hin.
      * intros [Hin|Hin]%elem_of_cons; [discriminate Hin|].
        destruct (IH Hgated Hin) as [Hgrant Hbefore].
        split; [done | by apply grantedBefore_cons].
    + intros [Hin|Hin]%elem_of_cons.
      * injection Hin as ->. rewrite Hmut in Hgated. discriminate Hgated.
      * apply list_elem_of_fmap in Hin as (c & Hc & _). discriminate Hc.
Qed.

(** The router: the same, over the routes tried in turn. *)
Lemma dispatch_gated (rs : list (Route Schema Handler)) req db h :
  forallb (fun r => gated (stack r)) rs = true →
  mutating h = true →
  Entered h ∈ trace (route rs req db) →
  (∃ ps, authorize (withParams ps req) = None)
  ∧ grantedBefore h (trace (route rs req db)).
Proof.
  intros Hgated Hmut. revert db.
  induction rs as [|r rs IH]; intros db; simpl.
  - intros Hin. by apply elem_of_nil in Hin.
  - simpl in Hgated. apply andb_true_iff in Hgated as [Hr Hrs].
    destruct (decide (verb r = method req)) as [_|_]; [|by apply IH].
    destruct (matchPath (pattern r) (path req)) as [ps|]; [|by apply IH].
    destruct (result (run (stack r) (withParams ps req) db)) as [o|].
    + intros Hin. destruct (runStack_gated _ _ _ _ Hr Hmut Hin) as [Hgrant Hbefore].
      split; [by exists ps | done].
    + simpl. intros [Hin|Hin]%elem_of_app.
      * destruct (runStack_gated _ _ _ _ Hr Hmut Hin) as [Hgrant Hbefore].
        split; [by exists ps | by apply grantedBefore_app_l].
      * destruct (IH Hrs _ Hin) as [Hgrant Hbefore].
        split; [done | by apply grantedBefore_app_r].
Qed.

(** C5. The four mutating routes of the role router are registered with
    [isAuthorized] in their stack before the handler, and no request
    enters a handler that creates, changes or deletes a role unless
    [isAuthorized] has called [next()] on it before. *)
Theorem role_mutations_authorized (req : Request) (db : Db) (h : Handler) :
  mutating h = true →
  Entered h ∈ trace (route routes req db) →
  (registered POST [] createHandler
   ∧ registered PUT [Param "id"] updateByIdHandler
   ∧ registered DELETE [Param "id"] deleteByIdHandler
   ∧ registered PUT [Param "id"; Lit "permissions"] updatePermissionsHandler)
  ∧ (∃ ps, authorize (withParams ps req) = None)
  ∧ grantedBefore h (trace (route routes req db)).
Proof.
  intros Hmut Hin. split; [|by apply dispatch_gated].
  repeat split.
  - exists [logRequest; isAuthorized; validateRequest createSchema InBody].
    split; [|apply list_elem_of_lookup; by exists 1%nat]. apply list_elem_of_lookup. by exists 2%nat.
  - exists [logRequest; isAuthorized; validateRequest idSchema InParams;
            validateRequest updateSchema InBody].
    split; [|apply list_elem_of_lookup; by exists 1%nat]. apply list_elem_of_lookup. by exists 4%nat.
  - exists [logRequest; isAuthorized; validateRequest idSchema InParams].
    split; [|apply list_elem_of_lookup; by exists 1%nat]. apply list_elem_of_lookup. by exists 5%nat.
  - exists [logRequest; isAuthorized; validateRequest idSchema InParams;
            validateRequest permissionsSchema InBody].
    split; [|apply list_elem_of_lookup; by exists 1%nat]. apply list_elem_of_lookup. by exists 7%nat.
Qed.

End Gate.

(** Handlers that answer 200 without touching the store. *)
Definition answering (h : Handler) (req : Request) (db : Db) : Handled :=
  {| outcome := resJson JNull; invoked := []; after := db |}.

Definition putRole : Request :=
  {| method := PUT; path := ["r1"]; params := ∅; query := JUndefined;
     body := JObj {[ "name" := JStr "editor" ]}; user := JUndefined |}.

Definition emptyDb : Db :=
  {| users := {| docs := []; nextId := 0; outage := None |};
     repositories := {| docs := []; nextId := 0; outage := None |} |}.

Example put_role_granted :
  trace (dispatch (fun _ => None) (fun _ _ _ => None) answering routes putRole emptyDb)
  = [ Logged; AuthorizationChecked true; Validated idSchema InParams true;
      Validated updateSchema InBody true; Entered updateByIdHandler ].
Proof. reflexivity. Qed.

Example put_role_denied :
  let denial := resStatusJson 403 (JObj {[ "message" := JStr "Forbidden" ]}) in
  dispatch (fun _ => Some denial) (fun _ _ _ => None) answering routes putRole emptyDb
  = {| trace := [Logged; AuthorizationChecked false];
       result := Some denial; store := emptyDb |}.
Proof. reflexivity. Qed.

Lemma role_mutations_authorized_witness :
  grantedBefore updateByIdHandler
    (trace (dispatch (fun _ => None) (fun _ _ _ => None) answering routes putRole emptyDb)).
Proof.
  apply (role_mutations_authorized (fun _ => None) (fun _ _ _ => None) answering
           putRole emptyDb updateByIdHandler eq_refl).
  rewrite put_role_granted. apply list_elem_of_lookup. by exists 4%nat.
Defined.

End RoleFacts.

(** ** The token codec *)

Module TokenCodecFacts.
Import TokenCodec.

Local Open Scope nat_scope.

Lemma xorb_cancel (a b : bool) : xorb (xorb a b) b = a.
Proof. by destruct a, b. Qed.

Lemma xorByte_cancel (a b : ascii) : xorByte (xorByte a b) b = a.
Proof.
  destruct a as [a0 a1 a2 a3 a4 a5 a6 a7], b as [b0 b1 b2 b3 b4 b5 b6 b7]. simpl.
  by rewrite !xorb_cancel.
Qed.

Lemma xorBlock_length (a b : list ascii) :
  length a = length b → length (xorBlock a b) = length a.
Proof. intros Hlen. unfold xorBlock. rewrite length_zip_with. lia. Qed.

Lemma xorBlock_cancel (a b : list ascii) :
  length a = length b → xorBlock (xorBlock a b) b = a.
Proof.
  revert b. induction a as [|x a IH]; intros [|y b] Hlen; simpl in *; try done.
  rewrite xorByte_cancel. f_equal. apply IH. lia.
Qed.

Section Cipher.
Variable blockSize : nat.
Context {Key : Type}.
Variable encryptBlock decryptBlock : Key -> list ascii -> list ascii.

Hypothesis blockSize_pos : 0 < blockSize.
Hypothesis blockSize_byte : blockSize < 256.
Hypothesis encryptBlock_length :
  ∀ k b, length b = blockSize → length (encryptBlock k b) = blockSize.
Hypothesis decrypt_encrypt_block :
  ∀ k b, length b = blockSize → decryptBlock k (encryptBlock k b) = b.

Local Abbreviation whole := (Forall (fun b : list ascii => length b = blockSize)).

Lemma padLength_bounds len : 1 <= padLength blockSize len <= blockSize.
Proof.
  unfold padLength. pose proof (Nat.mod_upper_bound len blockSize). lia.
Qed.

Lemma pad_length (m : list ascii) :
  ∃ n, length (pad blockSize m) = S n * blockSize.
Proof.
  unfold pad, padLength. rewrite length_app, length_replicate.
  exists (length m / blockSize).
  pose proof (Nat.div_mod_eq (length m) blockSize).
  pose proof (Nat.mod_upper_bound (length m) blockSize). lia.
Qed.

Lemma unpad_pad (m : list ascii) : unpad blockSize (pad blockSize m) = Some m.
Proof.
  pose proof (padLength_bounds (length m)) as Hn.
  unfold unpad, pad. set (n := padLength blockSize (length m)) in *.
  destruct n as [|n'] eqn:Hn'; [lia|].
  rewrite replicate_S_end, app_assoc, last_snoc.
  rewrite nat_ascii_embedding by lia.
  rewrite <- app_assoc, <- replicate_S_end.
  rewrite length_app, length_replicate.
  replace (length m + S n' - S n') with (length m) by lia.
  rewrite drop_app_length, take_app_length.
  rewrite bool_decide_true; [done|]. repeat split; lia.
Qed.

Lemma blocksUpTo_whole n : ∀ steps (m : list ascii),
  length m = n * blockSize → n <= steps →
  whole (blocksUpTo blockSize steps m) ∧ concat (blocksUpTo blockSize steps m) = m.
Proof.
  induction n as [|n IH]; intros steps m Hlen Hsteps.
  - destruct m; [|simpl in Hlen; lia]. by destruct steps.
  - destruct steps as [|steps]; [lia|]. destruct m as [|c m]; [simpl in Hlen; lia|].
    cbn [blocksUpTo]. set (l := c :: m) in *.
    destruct (IH steps (drop blockSize l)) as [Hwhole Hconcat].
    + rewrite length_drop. lia.
    + lia.
    + split.
      * constructor; [|done]. rewrite length_take. lia.
      * cbn [concat]. rewrite Hconcat. apply take_drop.
Qed.

Lemma blocks_whole (m : list ascii) n :
  length m = n * blockSize →
  whole (blocks blockSize m) ∧ concat (blocks blockSize m) = m.
Proof. intros Hlen. apply (blocksUpTo_whole n); [done | nia]. Qed.

Lemma concat_whole_length (bs : list (list ascii)) :
  whole bs → length (concat bs) = length bs * blockSize.
Proof.
  induction 1 as [|b bs Hb _ IH]; [done|]. simpl. rewrite length_app. lia.
Qed.

Lemma blocksUpTo_concat (bs : list (list ascii)) : ∀ steps,
  whole bs → length bs <= steps → blocksUpTo blockSize steps (concat bs) = bs.
Proof.
  induction bs as [|b bs IH]; intros steps Hwhole Hsteps.
  - by destruct steps.
  - apply Forall_cons in Hwhole as [Hb Hwhole].
    destruct steps as [|steps]; [simpl in Hsteps; lia|].
    cbn [concat blocksUpTo]. destruct (b ++ concat bs)%list as [|c rest] eqn:Hcat.
    { apply (f_equal length) in Hcat. rewrite length_app in Hcat. simpl in Hcat. lia. }
    rewrite <- Hcat, take_app_length', drop_app_length' by done. f_equal.
    apply IH; [done | simpl in Hsteps; lia].
Qed.

Lemma blocks_concat (bs : list (list ascii)) :
  whole bs → blocks blockSize (concat bs) = bs.
Proof.
  intros Hwhole. apply blocksUpTo_concat; [done|].
  rewrite concat_whole_length by done. nia.
Qed.

Lemma chainEncrypt_whole k previous bs :
  length previous = blockSize → whole bs →
  whole (chainEncrypt encryptBlock k previous bs).
Proof.
  intros Hprev Hwhole. revert previous Hprev.
  induction Hwhole as [|b bs Hb _ IH]; intros previous Hprev; simpl; [done|].
  assert (Hc : length (encryptBlock k (xorBlock b previous)) = blockSize).
  { apply encryptBlock_length. rewrite xorBlock_length; lia. }
  constructor; [done | by apply IH].
Qed.

Lemma chainEncrypt_length k previous bs :
  length (chainEncrypt encryptBlock k previous bs) = length bs.
Proof. revert previous. induction bs as [|b bs IH]; intros previous; simpl; [done|]. by rewrite IH. Qed.

Lemma chainDecrypt_chainEncrypt k previous bs :
  length previous = blockSize → whole bs →
  chainDecrypt decryptBlock k previous (chainEncrypt encryptBlock k previous bs) = bs.
Proof.
  intros Hprev Hwhole. revert previous Hprev.
  induction Hwhole as [|b bs Hb _ IH]; intros previous Hprev; simpl; [done|].
  assert (Hx : length (xorBlock b previous) = blockSize).
  { rewrite xorBlock_length; lia. }
  rewrite decrypt_encrypt_block, xorBlock_cancel by lia. f_equal.
  apply IH. by apply encryptBlock_length.
Qed.

(** C3. Decrypting the ciphertext of a token with the IV that the
    encryption generated and returned gives the token back, for every
    token, key and IV of one block. *)
Theorem decrypt_encrypt (k : Key) (fresh : list ascii) (token : string) :
  length fresh = blockSize →
  let '(ciphertext, iv) := encryptToken blockSize encryptBlock k fresh token in
  iv = fresh ∧ decryptToken blockSize decryptBlock k ciphertext iv = Ok token.
Proof.
  intros Hfresh. unfold encryptToken. split; [done|]. unfold decryptToken.
  rewrite String.list_ascii_of_string_of_list_ascii.
  set (plaintext := String.list_ascii_of_string token).
  destruct (pad_length plaintext) as [n Hn].
  destruct (blocks_whole (pad blockSize plaintext) (S n) Hn) as [Hwhole Hconcat].
  set (bs := blocks blockSize (pad blockSize plaintext)) in *.
  pose proof (chainEncrypt_whole k fresh bs Hfresh Hwhole) as Hcipher.
  assert (Hbs : length bs = S n).
  { pose proof (concat_whole_length bs Hwhole) as Hl. rewrite Hconcat, Hn in Hl. nia. }
  rewrite bool_decide_true.
  - rewrite blocks_concat, chainDecrypt_chainEncrypt by done.
    rewrite Hconcat, unpad_pad. subst plaintext.
    by rewrite String.string_of_list_ascii_of_string.
  - rewrite concat_whole_length, chainEncrypt_length, Hbs by done.
    repeat split; [done| |apply Nat.Div0.mod_mul].
    intros Hnil. apply (f_equal length) in Hnil.
    rewrite concat_whole_length, chainEncrypt_length, Hbs in Hnil by done.
    simpl in Hnil. lia.
Qed.
End Cipher.

(** A toy block cipher on blocks of four bytes: it reverses the block. *)
Definition toyBlock (k : unit) (b : list ascii) : list ascii := rev b.

Example encrypt_sample :
  (encryptToken 4 toyBlock tt (String.list_ascii_of_string "iv00") "gho_1").1
  = String.string_of_list_ascii
      (map ascii_of_nat [111; 95; 30; 14; 13; 29; 92; 94]).
Proof. reflexivity. Qed.

Example decrypt_malformed :
  decryptToken 4 toyBlock tt "abc" (String.list_ascii_of_string "iv00")
  = Throw DecryptionError.
Proof. reflexivity. Qed.

Lemma decrypt_encrypt_witness :
  decryptToken 4 toyBlock tt
    (encryptToken 4 toyBlock tt (String.list_ascii_of_string "iv00") "gho_1").1
    (String.list_ascii_of_string "iv00")
  = Ok "gho_1".
Proof.
  apply (decrypt_encrypt 4 toyBlock toyBlock); try (simpl; lia).
  - intros k b Hb. unfold toyBlock. by rewrite length_rev.
  - intros k b Hb. unfold toyBlock. apply rev_involutive.
Defined.

End TokenCodecFacts.

(* ===================================================================== *)
(** * Further properties *)
(* ===================================================================== *)

Module JsLaws.

(** A value whose properties can be read: neither [undefined] nor [null]. *)
Definition readable (v : JsValue) : Prop := v ≠ JUndefined ∧ v ≠ JNull.

Lemma readable_dec v : {readable v} + {¬ readable v}.
Proof.
  destruct v; try (left; by split); right; intros [Hu Hn]; congruence.
Qed.

Lemma strictEquals_eq a b : strictEquals a b = true → a = b.
Proof.
  destruct a, b; simpl; try discriminate; try done.
  - intros H. f_equal. by apply Bool.eqb_prop.
  - intros H. f_equal. by apply Z.eqb_eq.
  - intros H. f_equal. by apply String.eqb_eq.
Qed.

End JsLaws.

(** ** The repository service, continued *)

Module RepositoryLaws.
Import RepositoryService JsFacts JsLaws MongoFacts RepositoryFacts.

(** A computation that never changes the store. *)
Definition readOnly {A} (m : Svc A) : Prop := ∀ db, (m db).2 = db.

(** A computation that leaves the store as it was whenever it rejects. *)
Definition failsClean {A} (m : Svc A) : Prop :=
  ∀ db e db', m db = (Throw e, db') → db' = db.

Lemma readOnly_failsClean {A} (m : Svc A) : readOnly m → failsClean m.
Proof. intros Hm db e db' Hrun. specialize (Hm db). by rewrite Hrun in Hm. Qed.

Lemma readOnly_lift {A} (r : Result A) : readOnly (lift r).
Proof. by intros db. Qed.

Lemma readOnly_throw {A} (e : JsError) : readOnly (throw (A := A) e).
Proof. by intros db. Qed.

Lemma readOnly_mret {A} (a : A) : readOnly (mret a : Svc A).
Proof. by intros db. Qed.

Lemma readOnly_bind {A B} (m : Svc A) (f : A -> Svc B) :
  readOnly m → (∀ a, readOnly (f a)) → readOnly (m ≫= f).
Proof.
  intros Hm Hf db. rewrite svc_bind_eq. specialize (Hm db).
  destruct (m db) as [[a|e] db1]; simpl in Hm; subst db1; [apply Hf | done].
Qed.

Lemma readOnly_tryCatch {A} (body : Svc A) (handler : JsError -> Svc A) :
  readOnly body → (∀ e, readOnly (handler e)) → readOnly (tryCatch body handler).
Proof.
  intros Hb Hh db. unfold tryCatch. specialize (Hb db).
  destruct (body db) as [[a|e] db1]; simpl in Hb; subst db1; [done | apply Hh].
Qed.

Lemma readOnly_call {A} m (f : Collection -> Result A) :
  readOnly (call m (fun c => (f c, c))).
Proof.
  intros db. destruct (outage (collectionOf m db)) as [msg|] eqn:Hout.
  - by rewrite (call_outage m _ db msg).
  - by rewrite call_read.
Qed.

Lemma failsClean_bind {A B} (m : Svc A) (f : A -> Svc B) :
  readOnly m → (∀ a, failsClean (f a)) → failsClean (m ≫= f).
Proof.
  intros Hm Hf db e db'. rewrite svc_bind_eq. specialize (Hm db).
  destruct (m db) as [[a|e1] db1]; simpl in Hm; subst db1.
  - apply Hf.
  - by intros [= _ <-].
Qed.

Lemma failsClean_tryCatch {A} (body : Svc A) (wrap : JsError -> JsError) :
  failsClean body → failsClean (tryCatch body (fun e => throw (wrap e))).
Proof.
  intros Hb db e db'. unfold tryCatch, throw.
  destruct (body db) as [[a|e1] db1] eqn:Hrun; [done|].
  intros [= _ <-]. by eapply Hb.
Qed.

Lemma failsClean_call {A} m (k : Collection -> Result A * Collection) :
  (∀ c, ∃ a, (k c).1 = Ok a) → failsClean (call m k).
Proof.
  intros Hk db e db'. destruct (outage (collectionOf m db)) as [msg|] eqn:Hout.
  - rewrite (call_outage m _ db msg) by done. by intros [= _ <-].
  - rewrite call_up by done. destruct (Hk (collectionOf m db)) as [a Ha].
    rewrite Ha. discriminate.
Qed.

(** What the service's [catch] blocks make of an error. *)
Lemma tryCatch_wraps {A} (body : Svc A) (wrap : JsError -> JsError) db e db' :
  tryCatch body (fun e => throw (wrap e)) db = (Throw e, db') → ∃ cause, e = wrap cause.
Proof.
  unfold tryCatch, throw. destruct (body db) as [[a|e1] db1]; [done|].
  intros [= <- _]. by exists e1.
Qed.

Lemma search_readOnly payload : readOnly (search payload).
Proof.
  unfold search. apply readOnly_tryCatch; [|intros; apply readOnly_throw].
  apply readOnly_bind; [apply readOnly_lift|]. intros username.
  apply readOnly_bind; [apply readOnly_lift|]. intros repository.
  destruct (_ || _); [apply readOnly_throw|].
  apply readOnly_bind; [apply readOnly_call | intros; apply readOnly_mret].
Qed.

Lemma getById_readOnly id : readOnly (getById id).
Proof.
  unfold getById. apply readOnly_tryCatch; [|intros; apply readOnly_throw].
  apply readOnly_bind; [apply readOnly_call|]. intros item.
  apply readOnly_bind; [apply readOnly_lift | intros; apply readOnly_mret].
Qed.

(** X2. [search] and [getById] are reads: whatever the argument and
    whether they resolve or reject, the store afterwards is the store
    before. *)
Theorem reads_leave_store (db : Db) (v : JsValue) :
  (search v db).2 = db ∧ (getById v db).2 = db.
Proof. split; [apply search_readOnly | apply getById_readOnly]. Qed.


(** *** The two mappings *)

Lemma member_readable v k : readable v → member v k = Ok (field v k).
Proof. intros [Hu Hn]. by destruct v. Qed.

Lemma member_unreadable v k : ¬ readable v → ∃ e, member v k = Throw e.
Proof.
  intros Hv. destruct v; try (exfalso; apply Hv; by split); by eexists.
Qed.

Lemma mapGithub_object (r : JsObject) :
  readable (prop r "owner") → readable (prop r "license") →
  ∃ data, mapGithubResponseToSchema (JObj r) = Ok data
    ∧ data !! "_id" = None
    ∧ data !! "id" = Some (prop r "id")
    ∧ (∀ k, k ∈ selectedFields → data !! k = Some (mirror k r)).
Proof.
  intros Howner Hlicense. unfold mapGithubResponseToSchema.
  cbn [member mbind Result_bind].
  rewrite !(member_readable (prop r "owner")) by done. cbn [mbind Result_bind].
  rewrite !(member_readable (prop r "license")) by done. cbn [mbind Result_bind].
  eexists. split; [reflexivity|]. split; [reflexivity|]. split; [reflexivity|].
  intros k Hk. unfold selectedFields in Hk.
  repeat (apply elem_of_cons in Hk as [->|Hk]; [reflexivity|]).
  by apply elem_of_nil in Hk.
Qed.

Lemma mapGithub_unreadable_owner (r : JsObject) :
  ¬ readable (prop r "owner") → ∃ e, mapGithubResponseToSchema (JObj r) = Throw e.
Proof.
  intros Howner. unfold mapGithubResponseToSchema. cbn [member mbind Result_bind].
  destruct (member_unreadable _ "login" Howner) as [e ->]. by eexists.
Qed.

Lemma mapGithub_unreadable_license (r : JsObject) :
  readable (prop r "owner") → ¬ readable (prop r "license") →
  ∃ e, mapGithubResponseToSchema (JObj r) = Throw e.
Proof.
  intros Howner Hlicense. unfold mapGithubResponseToSchema.
  cbn [member mbind Result_bind].
  rewrite !(member_readable (prop r "owner")) by done. cbn [mbind Result_bind].
  destruct (member_unreadable _ "key" Hlicense) as [e ->]. by eexists.
Qed.

Lemma mapGithub_defined_inv (response : JsValue) (data : JsObject) :
  mapGithubResponseToSchema response = Ok data →
  ∃ r, response = JObj r ∧ readable (prop r "owner") ∧ readable (prop r "license").
Proof.
  intros Hok. destruct response as [| | | | | | |r]; try discriminate Hok.
  exists r. split; [done|].
  destruct (readable_dec (prop r "owner")) as [Howner|Howner].
  - split; [done|]. destruct (readable_dec (prop r "license")) as [Hl|Hl]; [done|].
    destruct (mapGithub_unreadable_license r Howner Hl) as [e He]. congruence.
  - destruct (mapGithub_unreadable_owner r Howner) as [e He]. congruence.
Qed.

(** X6. The full mapping returns an object exactly for a response object
    whose [owner] and [license] are neither [null] nor [undefined]; for
    every other response it throws, as it reads [response.owner.login]
    and [response.license.key]. *)
Theorem mapGithubResponseToSchema_defined (response : JsValue) :
  (∃ data, mapGithubResponseToSchema response = Ok data)
  ↔ ∃ r, response = JObj r ∧ readable (prop r "owner") ∧ readable (prop r "license").
Proof.
  split.
  - intros [data Hok]. by apply (mapGithub_defined_inv response data).
  - intros (r & -> & Howner & Hlicense).
    destruct (mapGithub_object r Howner Hlicense) as (data & Hok & _). by exists data.
Qed.

(** X7. Whenever both mappings are defined on a response, the selected
    mapping is a part of the full one: it writes the fourteen selected
    fields and nothing else, each with the value the full mapping gives
    it. *)
Theorem selected_within_full (response : JsValue) (selected full : JsObject) :
  mapSelectedGithubResponseToSchema response = Ok selected →
  mapGithubResponseToSchema response = Ok full →
  selected ⊆ full ∧ dom selected = list_to_set selectedFields.
Proof.
  intros Hsel Hfull.
  destruct (mapGithub_defined_inv response full Hfull) as (r & -> & Howner & Hlicense).
  destruct (mapGithub_object r Howner Hlicense) as (full' & Hfull' & _ & _ & Hmirror).
  destruct (mapSelected_object r) as (selected' & Hsel' & Hin & Hout).
  assert (selected' = selected) as -> by congruence.
  assert (full' = full) as -> by congruence.
  split.
  - apply map_subseteq_spec. intros k v Hk.
    destruct (decide (k ∈ selectedFields)) as [Hmem|Hmem].
    + rewrite (Hin k Hmem) in Hk. by rewrite (Hmirror k Hmem).
    + by rewrite (Hout k Hmem) in Hk.
  - apply set_eq. intros k. rewrite elem_of_dom, elem_of_list_to_set. split.
    + intros [v Hv]. destruct (decide (k ∈ selectedFields)) as [Hmem|Hmem]; [done|].
      by rewrite (Hout k Hmem) in Hv.
    + intros Hmem. rewrite (Hin k Hmem). by eexists.
Qed.

(** *** Rejections *)

Lemma failsClean_bind_mret {A B} (m : Svc A) (g : A -> B) :
  failsClean m → failsClean (m ≫= fun a => mret (g a)).
Proof.
  intros Hm db e db'. rewrite svc_bind_eq.
  destruct (m db) as [[a|e1] db1] eqn:Hrun; [done|].
  intros [= _ <-]. by eapply Hm.
Qed.

Lemma create_failsClean data : failsClean (create data).
Proof.
  unfold create. apply failsClean_tryCatch, (failsClean_bind_mret _ (fun a => a)).
  apply failsClean_call. intros c. by eexists.
Qed.

Lemma updateById_failsClean id data : failsClean (updateById id data).
Proof.
  unfold updateById. apply failsClean_tryCatch, (failsClean_bind_mret _ (fun a => a)).
  apply failsClean_call. intros c. by eexists.
Qed.

Lemma deleteById_failsClean id : failsClean (deleteById id).
Proof.
  unfold deleteById. apply failsClean_tryCatch, (failsClean_bind_mret _ (fun _ => true)).
  apply failsClean_call. intros c. by eexists.
Qed.

(** *** The store across calls *)

(** The next ObjectId of the collection is carried by no document. *)
Definition unusedNextId (c : Collection) : Prop :=
  ∀ d, d ∈ docs c → hasId (objectId (nextId c)) d = false.

(** No two documents carry the same [_id]. *)
Definition distinctIds (ds : list JsObject) : Prop :=
  ∀ (i j : nat) d1 d2,
    ds !! i = Some d1 → ds !! j = Some d2 → hasId (prop d1 "_id") d2 = true → i = j.

Lemma find_none_elem {A} (f : A -> bool) (l : list A) :
  List.find f l = None ↔ ∀ x, x ∈ l → f x = false.
Proof.
  split.
  - intros Hnone x Hx. apply (List.find_none f l Hnone). by apply list_elem_of_In.
  - intros Hall. induction l as [|a l IH]; [done|]. simpl.
    rewrite (Hall a) by apply list_elem_of_here. apply IH.
    intros x Hx. apply Hall. by apply list_elem_of_further.
Qed.

Lemma find_snoc {A} (f : A -> bool) (l : list A) (x : A) :
  List.find f l = None → List.find f (l ++ [x]) = if f x then Some x else None.
Proof.
  induction l as [|a l IH]; simpl; [done|]. destruct (f a); [done | apply IH].
Qed.

Lemma collection_eta (c : Collection) :
  {| docs := docs c; nextId := nextId c; outage := outage c |} = c.
Proof. by destruct c. Qed.

Lemma db_eta (db : Db) : {| users := users db; repositories := repositories db |} = db.
Proof. by destruct db. Qed.

Lemma sampleDb_unused : unusedNextId (repositories sampleDb).
Proof.
  intros d Hd. simpl in Hd. apply list_elem_of_singleton in Hd as ->. reflexivity.
Defined.

Lemma sampleDb_distinct : distinctIds (docs (repositories sampleDb)).
Proof.
  intros i j d1 d2 Hi Hj _. destruct i as [|i], j as [|j]; simpl in Hi, Hj; done.
Defined.

(** X3. With the store answering and the next ObjectId unused, [create]
    resolves to the data under a fresh [_id], every other property as
    given, and [getById] of that [_id] then resolves to the very document
    created. *)
Theorem create_then_getById (data : JsObject) (db : Db) :
  outage (repositories db) = None →
  unusedNextId (repositories db) →
  ∃ created db1,
    create data db = (Ok created, db1)
    ∧ created !! "_id" = Some (objectId (nextId (repositories db)))
    ∧ (∀ k, k ≠ "_id" → created !! k = data !! k)
    ∧ getById (prop created "_id") db1 = (Ok (JObj created), db1).
Proof.
  intros Hup Hfresh. eexists _, _. split; [by apply create_up|].
  set (oid := objectId (nextId (repositories db))).
  split; [apply lookup_insert_eq|]. split; [intros k Hk; by apply lookup_insert_ne|].
  rewrite prop_insert_eq. unfold getById, tryCatch.
  rewrite svc_bind_eq, findById_up by done. cbn [collectionOf repositories docs].
  rewrite find_snoc by (by apply find_none_elem).
  assert (Hself : hasId oid (<["_id" := oid]> data) = true).
  { unfold hasId. rewrite prop_insert_eq. apply String.eqb_refl. }
  fold oid. by rewrite Hself.
Qed.

Lemma create_then_getById_witness :
  ∃ created db1,
    create {[ "name" := JStr "fresh" ]} sampleDb = (Ok created, db1)
    ∧ created !! "_id" = Some (objectId (nextId (repositories sampleDb)))
    ∧ (∀ k, k ≠ "_id" → created !! k = ({[ "name" := JStr "fresh" ]} : JsObject) !! k)
    ∧ getById (prop created "_id") db1 = (Ok (JObj created), db1).
Proof.
  exact (create_then_getById {[ "name" := JStr "fresh" ]} sampleDb eq_refl sampleDb_unused).
Defined.

Lemma distinctIds_tail d ds : distinctIds (d :: ds) → distinctIds ds.
Proof.
  intros Hd i j d1 d2 Hi Hj Hsame.
  assert (S i = S j) as [= ->]; [|done]. by eapply Hd.
Qed.

Lemma find_removeFirst id ds :
  distinctIds ds → List.find (hasId id) (removeFirst id ds) = None.
Proof.
  induction ds as [|d ds IH]; intros Hdistinct; simpl; [done|].
  destruct (hasId id d) eqn:Hd.
  - apply find_none_elem. intros d2 Hin. apply not_true_is_false. intros Hd2.
    apply list_elem_of_lookup in Hin as [j Hj].
    assert (0%nat = S j) as Hij; [|discriminate Hij].
    apply (Hdistinct 0%nat (S j) d d2); [done | done |].
    unfold hasId in *. apply strictEquals_eq in Hd. by rewrite Hd.
  - simpl. rewrite Hd. apply IH. by eapply distinctIds_tail.
Qed.

Lemma removeFirst_keeps id ds d :
  d ∈ ds → hasId id d = false → d ∈ removeFirst id ds.
Proof.
  induction ds as [|d0 ds IH]; simpl; [done|].
  intros [->|Hin]%elem_of_cons Hd.
  - rewrite Hd. apply list_elem_of_here.
  - destruct (hasId id d0); [done|]. apply list_elem_of_further. by apply IH.
Qed.

(** X4. With the store answering and no two documents sharing an [_id],
    [deleteById] resolves to [true], keeps the users and every document
    with another [_id], and a [getById] of the deleted id afterwards
    rejects as for an id that never existed. *)
Theorem deleteById_then_getById (id : JsValue) (db : Db) :
  outage (repositories db) = None →
  distinctIds (docs (repositories db)) →
  ∃ db1,
    deleteById id db = (Ok true, db1)
    ∧ users db1 = users db
    ∧ (∀ d, d ∈ docs (repositories db) → hasId id d = false →
            d ∈ docs (repositories db1))
    ∧ getById id db1
      = (Throw (AppError "Failed to get repository" (nullRead "_id") None), db1).
Proof.
  intros Hup Hdistinct. eexists. split; [by apply deleteById_up|].
  split; [done|]. split.
  - intros d Hin Hd. by apply removeFirst_keeps.
  - unfold getById, tryCatch. rewrite svc_bind_eq, findById_up by done.
    cbn [collectionOf repositories docs]. by rewrite find_removeFirst.
Qed.

Lemma deleteById_then_getById_witness :
  ∃ db1,
    deleteById (JStr "oid:0") sampleDb = (Ok true, db1)
    ∧ users db1 = users sampleDb
    ∧ (∀ d, d ∈ docs (repositories sampleDb) → hasId (JStr "oid:0") d = false →
            d ∈ docs (repositories db1))
    ∧ getById (JStr "oid:0") db1
      = (Throw (AppError "Failed to get repository" (nullRead "_id") None), db1).
Proof.
  exact (deleteById_then_getById (JStr "oid:0") sampleDb eq_refl sampleDb_distinct).
Defined.

Lemma length_alterFirst id f ds : length (alterFirst id f ds) = length ds.
Proof.
  induction ds as [|d ds IH]; simpl; [done|].
  destruct (hasId id d); simpl; by rewrite ?IH.
Qed.

(** X5. With the store answering, [updateById] resolves, never changes
    the number of documents and never touches the users; for an id that
    no document carries it resolves to [null] and leaves the store exactly
    as it was: it never inserts. *)
Theorem updateById_never_inserts (id : JsValue) (data : JsObject) (db : Db) :
  outage (repositories db) = None →
  ∃ item db1,
    updateById id data db = (Ok item, db1)
    ∧ length (docs (repositories db1)) = length (docs (repositories db))
    ∧ users db1 = users db
    ∧ (List.find (hasId id) (docs (repositories db)) = None → item = JNull ∧ db1 = db).
Proof.
  intros Hup. eexists _, _. split; [by apply updateById_up|].
  cbn [repositories docs users]. split; [apply length_alterFirst|]. split; [done|].
  intros Hnone. rewrite Hnone. split; [done|].
  rewrite alterFirst_absent by done. rewrite <- Hup, collection_eta. apply db_eta.
Qed.

Lemma updateById_never_inserts_witness :
  ∃ item db1,
    updateById (JStr "oid:9") {[ "description" := JStr "x" ]} sampleDb = (Ok item, db1)
    ∧ length (docs (repositories db1)) = length (docs (repositories sampleDb))
    ∧ users db1 = users sampleDb
    ∧ (List.find (hasId (JStr "oid:9")) (docs (repositories sampleDb)) = None →
       item = JNull ∧ db1 = sampleDb).
Proof.
  exact (updateById_never_inserts (JStr "oid:9") {[ "description" := JStr "x" ]}
           sampleDb eq_refl).
Defined.

Section FetchLaws.
Variable decryptToken : JsValue -> JsValue -> Result string.
Variable fetchRepoDetails : string -> string -> string -> Result JsValue.
Local Abbreviation fetch := (fetchGitHubRepoDetails decryptToken fetchRepoDetails).

Lemma fetch_failsClean owner repo user : failsClean (fetch owner repo user).
Proof.
  unfold fetchGitHubRepoDetails. apply failsClean_tryCatch.
  apply failsClean_bind; [apply readOnly_lift|]. intros _id.
  apply failsClean_bind; [apply readOnly_call|]. intros dbUser.
  apply failsClean_bind; [apply readOnly_lift|]. intros accessToken.
  apply failsClean_bind; [apply readOnly_lift|]. intros accessTokenIV.
  apply failsClean_bind; [apply readOnly_lift|]. intros token.
  apply failsClean_bind; [apply readOnly_lift|]. intros response.
  apply failsClean_bind; [apply readOnly_lift|]. intros id.
  apply failsClean_bind; [apply readOnly_call|]. intros existing.
  destruct (truthy existing).
  - apply failsClean_bind; [apply readOnly_lift|]. intros data.
    apply failsClean_bind; [apply readOnly_lift|]. intros existingId.
    apply (failsClean_bind_mret _ (fun a => a)), updateById_failsClean.
  - apply failsClean_bind; [apply readOnly_lift|]. intros data.
    apply (failsClean_bind_mret _ JObj), create_failsClean.
Qed.

(** A rejection is an [AppError] with the given name and status, and the
    store is as before the call. *)
Definition rejectsAs {A} (nm : string) (code : Z) (m : Svc A) : Prop :=
  ∀ db e db', m db = (Throw e, db') →
    name e = nm ∧ HTTPStatus e = Some code ∧ db' = db.

Lemma rejectsAs_intro {A} nm status code (body : Svc A) :
  default 500 status = code →
  failsClean (tryCatch body (fun e => throw (AppError nm (message e) status))) →
  rejectsAs nm code (tryCatch body (fun e => throw (AppError nm (message e) status))).
Proof.
  intros Hcode Hclean db e db' Hrun. pose proof (Hclean db e db' Hrun) as ->.
  apply tryCatch_wraps in Hrun as [cause ->]. simpl. by rewrite Hcode.
Qed.

(** X1. Every rejection of a function of the repository service is an
    [AppError] named after the operation, with status 400 for [search]
    and 500 for the others, and it leaves the store as it was before the
    call. *)
Theorem service_rejections owner repo user (v : JsValue) (data : JsObject) :
  rejectsAs "Failed to create repository" 500 (create data)
  ∧ rejectsAs "Failed to search repository" 400 (search v)
  ∧ rejectsAs "Failed to get repository" 500 (getById v)
  ∧ rejectsAs "Failed to update repository" 500 (updateById v data)
  ∧ rejectsAs "Failed to delete repository" 500 (deleteById v)
  ∧ rejectsAs "Failed to fetch repository details" 500 (fetch owner repo user).
Proof.
  split; [|split; [|split; [|split; [|split]]]].
  - apply (rejectsAs_intro _ None); [done | apply create_failsClean].
  - apply (rejectsAs_intro _ (Some 400)); [done|].
    apply readOnly_failsClean, search_readOnly.
  - apply (rejectsAs_intro _ None); [done|].
    apply readOnly_failsClean, getById_readOnly.
  - apply (rejectsAs_intro _ None); [done | apply updateById_failsClean].
  - apply (rejectsAs_intro _ None); [done | apply deleteById_failsClean].
  - apply (rejectsAs_intro _ None); [done | apply fetch_failsClean].
Qed.

(** X8. A fetched repository that is not stored yet and whose [owner] or
    [license] is [null] or missing (GitHub answers [license: null] for a
    repository without one) is not stored: the service rejects with
    'Failed to fetch repository details' and the store is unchanged. *)
Theorem fetch_rejects_unmappable owner repo session db u token r :
  outage (users db) = None →
  outage (repositories db) = None →
  List.find (hasId (prop session "_id")) (docs (users db)) = Some u →
  decryptToken (prop u "accessToken") (prop u "accessTokenIV") = Ok token →
  fetchRepoDetails owner repo token = Ok (JObj r) →
  List.find (matchesFilter {[ "id" := prop r "id" ]}) (docs (repositories db)) = None →
  ¬ (readable (prop r "owner") ∧ readable (prop r "license")) →
  ∃ msg,
    fetch owner repo (JObj session) db
    = (Throw (AppError "Failed to fetch repository details" msg None), db).
Proof.
  intros Hu Hr Hfind Htok Hresp Hnone Hbad.
  rewrite (fetch_branches decryptToken fetchRepoDetails owner repo session db u token r)
    by done.
  rewrite Hnone. unfold tryCatch. rewrite svc_bind_eq. unfold lift at 1.
  destruct (mapGithubResponseToSchema (JObj r)) as [data|e] eqn:Hmap.
  - exfalso. apply Hbad.
    destruct (mapGithub_defined_inv (JObj r) data Hmap)
      as (r' & [= <-] & Howner & Hlicense). by split.
  - by exists (message e).
Qed.

Lemma alterFirst_fixed id f ds e :
  List.find (hasId id) ds = Some e → f e = e → alterFirst id f ds = ds.
Proof.
  intros Hfind Hfix.
  destruct (alterFirst_split id f ds e Hfind) as (pre & post & Hds & ->).
  by rewrite Hfix.
Qed.

(** X9. Fetching the same response twice is fetching it once: the first
    call stores one document, and the second resolves to that same
    document and leaves the store as the first call left it. *)
Theorem sync_twice_is_sync_once owner repo session db u token r (n : Z) :
  outage (users db) = None →
  outage (repositories db) = None →
  unusedNextId (repositories db) →
  List.find (hasId (prop session "_id")) (docs (users db)) = Some u →
  decryptToken (prop u "accessToken") (prop u "accessTokenIV") = Ok token →
  fetchRepoDetails owner repo token = Ok (JObj r) →
  prop r "id" = JNum n →
  List.find (matchesFilter {[ "id" := JNum n ]}) (docs (repositories db)) = None →
  readable (prop r "owner") →
  readable (prop r "license") →
  ∃ created db1,
    fetch owner repo (JObj session) db = (Ok (JObj created), db1)
    ∧ fetch owner repo (JObj session) db1 = (Ok (JObj created), db1)
    ∧ docs (repositories db1) = (docs (repositories db) ++ [created])%list.
Proof.
  intros Hu Hr Hfresh Hfind Htok Hresp Hid Hnone Howner Hlicense.
  destruct (mapGithub_object r Howner Hlicense) as (data & Hmap & Hno_id & Hdata_id & Hmirror).
  destruct (mapSelected_object r) as (selected & Hsel & Hin & Hout).
  set (created := <["_id" := objectId (nextId (repositories db))]> data).
  set (db1 := {| users := users db;
                 repositories :=
                   {| docs := docs (repositories db) ++ [created];
                      nextId := S (nextId (repositories db)); outage := None |} |}).
  exists created, db1. split; [|split; [|done]].
  - rewrite (fetch_branches decryptToken fetchRepoDetails owner repo session db u token r)
      by done.
    rewrite Hid, Hnone. unfold tryCatch. rewrite svc_bind_eq. unfold lift at 1.
    rewrite Hmap, svc_bind_eq, create_up by done. reflexivity.
  - assert (Hfound : List.find (matchesFilter {[ "id" := JNum n ]})
                       (docs (repositories db1)) = Some created).
    { cbn [db1 repositories docs]. rewrite find_snoc by done.
      rewrite matchesFilter_singleton. unfold created, prop.
      rewrite lookup_insert_ne by done. rewrite Hdata_id, Hid. simpl.
      by rewrite Z.eqb_refl. }
    assert (Hkey : List.find (hasId (prop created "_id")) (docs (repositories db1))
                   = Some created).
    { cbn [db1 repositories docs]. unfold created at 1. rewrite prop_insert_eq.
      rewrite find_snoc by (by apply find_none_elem).
      unfold hasId, created. rewrite prop_insert_eq. unfold objectId.
      cbn [strictEquals]. by rewrite String.eqb_refl. }
    assert (Hsame : setFields selected created = created).
    { unfold setFields. apply map_subseteq_union.
      transitivity data.
      - apply map_subseteq_spec. intros k v Hk.
        destruct (decide (k ∈ selectedFields)) as [Hmem|Hmem].
        + rewrite (Hin k Hmem) in Hk. by rewrite (Hmirror k Hmem).
        + by rewrite (Hout k Hmem) in Hk.
      - by apply insert_subseteq. }
    rewrite (fetch_branches decryptToken fetchRepoDetails owner repo session db1 u token r)
      by done.
    rewrite Hid, Hfound. unfold tryCatch. rewrite svc_bind_eq. unfold lift at 1.
    rewrite Hsel, updateById_up by done. rewrite Hkey.
    rewrite (alterFirst_fixed _ _ _ created Hkey Hsame).
    cbn [fmap option_fmap option_map orNull]. by rewrite Hsame.
Qed.
End FetchLaws.

Lemma service_rejections_witness :
  ∃ e, getById (JStr "oid:7") sampleDb = (Throw e, sampleDb)
       ∧ name e = "Failed to get repository" ∧ HTTPStatus e = Some 500.
Proof.
  destruct (service_rejections sampleDecrypt (sampleFetch 42) "octo" "demo" JNull
              (JStr "oid:7") ∅) as (_ & _ & Hget & _).
  exists (AppError "Failed to get repository" (nullRead "_id") None).
  destruct (Hget sampleDb _ sampleDb eq_refl) as (Hname & Hcode & _). by repeat split.
Defined.

Lemma selected_within_full_witness :
  ∃ selected full : JsObject,
    mapSelectedGithubResponseToSchema (JObj (githubResponse 42)) = Ok selected
    ∧ mapGithubResponseToSchema (JObj (githubResponse 42)) = Ok full
    ∧ selected ⊆ full.
Proof.
  destruct (mapSelectedGithubResponseToSchema (JObj (githubResponse 42)))
    as [selected|] eqn:Hsel; [|discriminate Hsel].
  destruct (mapGithubResponseToSchema (JObj (githubResponse 42)))
    as [full|] eqn:Hfull; [|discriminate Hfull].
  exists selected, full. split; [done|]. split; [done|].
  apply (selected_within_full (JObj (githubResponse 42)) selected full Hsel Hfull).
Defined.

(** The response for a repository without a license. *)
Definition unlicensed : JsObject := <["license" := JNull]> (githubResponse 43).

Lemma fetch_rejects_unmappable_witness :
  ∃ msg,
    fetchGitHubRepoDetails sampleDecrypt (fun _ _ _ => Ok (JObj unlicensed))
      "octo" "demo" (JObj octoUser) sampleDb
    = (Throw (AppError "Failed to fetch repository details" msg None), sampleDb).
Proof.
  apply (fetch_rejects_unmappable sampleDecrypt (fun _ _ _ => Ok (JObj unlicensed))
           "octo" "demo" octoUser sampleDb octoUser "gho_token" unlicensed
           eq_refl eq_refl eq_refl eq_refl eq_refl eq_refl).
  intros [_ [_ Hnull]]. by apply Hnull.
Defined.

Lemma sync_twice_is_sync_once_witness :
  ∃ created db1,
    fetchGitHubRepoDetails sampleDecrypt (sampleFetch 43) "octo" "demo" (JObj octoUser)
      sampleDb = (Ok (JObj created), db1)
    ∧ fetchGitHubRepoDetails sampleDecrypt (sampleFetch 43) "octo" "demo" (JObj octoUser)
        db1 = (Ok (JObj created), db1)
    ∧ docs (repositories db1) = (docs (repositories sampleDb) ++ [created])%list.
Proof.
  apply (sync_twice_is_sync_once sampleDecrypt (sampleFetch 43) "octo" "demo" octoUser
           sampleDb octoUser "gho_token" (githubResponse 43) 43
           eq_refl eq_refl sampleDb_unused eq_refl eq_refl eq_refl eq_refl eq_refl);
    split; discriminate.
Defined.
End RepositoryLaws.

(** ** Routers, continued *)

Module RouterLaws.
Import ExpressFacts.

Section Dispatch.
Context {S H : Type}.
Variable authorize : Request -> option Outcome.
Variable validate : S -> Source -> Request -> option Outcome.
Variable handle : H -> Request -> Db -> Handled.

Local Abbreviation run := (runStack authorize validate handle).
Local Abbreviation route := (dispatch authorize validate handle).

(** The handlers a trace entered. *)
Definition entered (tr : list (Event S H)) : list H :=
  omap (fun ev => match ev with Entered h => Some h | _ => None end) tr.

(** A stack is screened when a [validateRequest] stands before its
    handler. *)
Fixpoint screened (layers : list (Middleware S H)) : bool :=
  match layers with
  | [] => true
  | validateRequest _ _ :: _ => true
  | handler _ :: _ => false
  | _ :: rest => screened rest
  end.

Lemma runStack_untouched layers req db :
  entered (trace (run layers req db)) = [] → store (run layers req db) = db.
Proof.
  induction layers as [|layer layers IH]; simpl; [done|].
  destruct layer as [| |schema source|h]; simpl.
  - apply IH.
  - destruct (authorize req); [done | apply IH].
  - destruct (validate schema source req); [done | apply IH].
  - discriminate.
Qed.

Lemma entered_app (tr tr' : list (Event S H)) :
  entered (tr ++ tr') = (entered tr ++ entered tr')%list.
Proof. apply omap_app. Qed.

Lemma dispatch_untouched rs req db :
  entered (trace (route rs req db)) = [] → store (route rs req db) = db.
Proof.
  revert db. induction rs as [|r rs IH]; intros db; simpl; [done|].
  destruct (decide (verb r = method req)) as [_|_]; [|apply IH].
  destruct (matchPath (pattern r) (path req)) as [ps|]; [|apply IH].
  destruct (result (run (stack r) (withParams ps req) db)) eqn:Hres.
  - apply runStack_untouched.
  - simpl. rewrite entered_app. intros [Hrun Hrest]%app_eq_nil.
    rewrite IH by done. by apply runStack_untouched.
Qed.

(** In a trace, the validation of [schema] passed before the handler [h]
    was entered. *)
Definition validatedBefore (h : H) (schema : S) (source : Source)
    (tr : list (Event S H)) : Prop :=
  ∃ pre post : list (Event S H),
    tr = (pre ++ Validated schema source true :: post)%list ∧ Entered h ∈ post.

Lemma validatedBefore_cons ev h schema source tr :
  validatedBefore h schema source tr → validatedBefore h schema source (ev :: tr).
Proof. intros (pre & post & -> & Hin). by exists (ev :: pre), post. Qed.

Lemma validatedBefore_app_l h schema source tr tr' :
  validatedBefore h schema source tr → validatedBefore h schema source (tr ++ tr').
Proof.
  intros (pre & post & -> & Hin). exists pre, (post ++ tr')%list. split.
  - by rewrite <- app_assoc.
  - apply elem_of_app. by left.
Qed.

Lemma validatedBefore_app_r h schema source tr tr' :
  validatedBefore h schema source tr' → validatedBefore h schema source (tr ++ tr').
Proof.
  intros (pre & post & -> & Hin). exists (tr ++ pre)%list, post. split; [|done].
  by rewrite <- app_assoc.
Qed.

Lemma screened_before (pre post : list (Middleware S H)) (h : H) :
  screened (pre ++ handler h :: post) = true →
  ∃ schema source, validateRequest schema source ∈ pre.
Proof.
  induction pre as [|layer pre IH]; simpl; [discriminate|].
  destruct layer as [| |schema source|h']; simpl.
  - intros Hs. destruct (IH Hs) as (schema & source & Hin).
    exists schema, source. by apply list_elem_of_further.
  - intros Hs. destruct (IH Hs) as (schema & source & Hin).
    exists schema, source. by apply list_elem_of_further.
  - intros _. exists schema, source. apply list_elem_of_here.
  - discriminate.
Qed.

(** One stack: a handler is entered only where it stands in the stack,
    after every [validateRequest] before it has called [next()]. *)
Lemma runStack_entered layers req db h :
  Entered h ∈ trace (run layers req db) →
  ∃ pre post,
    layers = (pre ++ handler h :: post)%list
    ∧ ∀ schema source, validateRequest schema source ∈ pre →
        validate schema source req = None
        ∧ validatedBefore h schema source (trace (run layers req db)).
Proof.
  induction layers as [|layer layers IH]; simpl.
  - intros Hin. by apply elem_of_nil in Hin.
  - destruct layer as [| |schema0 source0|h0]; simpl.
    + intros [Hin|Hin]%elem_of_cons; [discriminate Hin|].
      destruct (IH Hin) as (pre & post & Hlayers & Hpre).
      exists (logRequest :: pre), post. split; [by rewrite Hlayers|].
      intros schema source [Heq|Hmem]%elem_of_cons; [discriminate Heq|].
      destruct (Hpre _ _ Hmem) as [Hpass Hbefore].
      split; [done | by apply validatedBefore_cons].
    + destruct (authorize req); simpl.
      * intros Hin. apply list_elem_of_singleton in Hin. discriminate Hin.
      * intros [Hin|Hin]%elem_of_cons; [discriminate Hin|].
        destruct (IH Hin) as (pre & post & Hlayers & Hpre).
        exists (isAuthorized :: pre), post. split; [by rewrite Hlayers|].
        intros schema source [Heq|Hmem]%elem_of_cons; [discriminate Heq|].
        destruct (Hpre _ _ Hmem) as [Hpass Hbefore].
        split; [done | by apply validatedBefore_cons].
    + destruct (validate schema0 source0 req) eqn:Hv; simpl.
      * intros Hin. apply list_elem_of_singleton in Hin. discriminate Hin.
      * intros [Hin|Hin]%elem_of_cons; [discriminate Hin|].
        destruct (IH Hin) as (pre & post & Hlayers & Hpre).
        exists (validateRequest schema0 source0 :: pre), post.
        split; [by rewrite Hlayers|].
        intros schema source [Heq|Hmem]%elem_of_cons.
        -- injection Heq as -> ->. split; [done|].
           by exists [], (trace (run layers req db)).
        -- destruct (Hpre _ _ Hmem) as [Hpass Hbefore].
           split; [done | by apply validatedBefore_cons].
    + intros [Hin|Hin]%elem_of_cons.
      * injection Hin as ->. exists [], layers. split; [done|].
        intros schema source Hmem. by apply elem_of_nil in Hmem.
      * apply list_elem_of_fmap in Hin as (c & Hc & _). discriminate Hc.
Qed.

(** The router: the same, in the route that the request matched. *)
Lemma dispatch_entered rs req db h :
  Entered h ∈ trace (route rs req db) →
  ∃ r ps pre post,
    r ∈ rs
    ∧ verb r = method req
    ∧ matchPath (pattern r) (path req) = Some ps
    ∧ stack r = (pre ++ handler h :: post)%list
    ∧ ∀ schema source, validateRequest schema source ∈ pre →
        validate schema source (withParams ps req) = None
        ∧ validatedBefore h schema source (trace (route rs req db)).
Proof.
  revert db. induction rs as [|r rs IH]; intros db; simpl.
  - intros Hin. by apply elem_of_nil in Hin.
  - assert (Hnext : Entered h ∈ trace (route rs req db) →
      ∃ r0 ps pre post,
        r0 ∈ r :: rs
        ∧ verb r0 = method req
        ∧ matchPath (pattern r0) (path req) = Some ps
        ∧ stack r0 = (pre ++ handler h :: post)%list
        ∧ ∀ schema source, validateRequest schema source ∈ pre →
            validate schema source (withParams ps req) = None
            ∧ validatedBefore h schema source (trace (route rs req db))).
    { intros Hin. destruct (IH _ Hin) as (r0 & ps & pre & post & Hr0 & Hrest).
      exists r0, ps, pre, post. split; [by apply list_elem_of_further | done]. }
    destruct (decide (verb r = method req)) as [Hverb|_]; [|done].
    destruct (matchPath (pattern r) (path req)) as [ps|] eqn:Hpath; [|done].
    clear Hnext.
    destruct (result (run (stack r) (withParams ps req) db)) eqn:Hres.
    + intros Hin. destruct (runStack_entered _ _ _ _ Hin) as (pre & post & Hstack & Hpre).
      exists r, ps, pre, post. split; [apply list_elem_of_here | done].
    + simpl. intros [Hin|Hin]%elem_of_app.
      * destruct (runStack_entered _ _ _ _ Hin) as (pre & post & Hstack & Hpre).
        exists r, ps, pre, post. split; [apply list_elem_of_here|].
        split; [done|]. split; [done|]. split; [done|].
        intros schema source Hmem. destruct (Hpre _ _ Hmem) as [Hpass Hbefore].
        split; [done | by apply validatedBefore_app_l].
      * destruct (IH _ Hin) as (r0 & ps0 & pre & post & Hr0 & Hv0 & Hp0 & Hs0 & Hpre).
        exists r0, ps0, pre, post. split; [by apply list_elem_of_further|].
        split; [done|]. split; [done|]. split; [done|].
        intros schema source Hmem. destruct (Hpre _ _ Hmem) as [Hpass Hbefore].
        split; [done | by apply validatedBefore_app_r].
Qed.

End Dispatch.
End RouterLaws.

(** ** The user router, continued *)

Module UserLaws.
Import UserApi Server JsFacts ExpressFacts RouterLaws.

Definition requestWith (m : Method) (p : list string) (u b : JsValue) : Request :=
  {| method := m; path := p; params := ∅; query := JUndefined; body := b; user := u |}.

Definition accepting (s : Schema) (src : Source) (r : Request) : option Outcome := None.

(** A service whose reads resolve to [null]: nothing is stored. *)
Definition emptyService : Service :=
  {| search := fun _ => mret (JArr []);
     count := fun _ => mret (JNum 0);
     getById := fun _ => mret JNull;
     create := fun data => mret data;
     updateById := fun _ _ => mret JNull;
     deleteById := fun _ => mret JNull;
     followUser := fun _ _ => mret (JBool true) |}.

Definition nobody : Db :=
  {| users := {| docs := []; nextId := 0; outage := None |};
     repositories := {| docs := []; nextId := 0; outage := None |} |}.

Lemma routes_screened : forallb (fun r => screened (stack r)) routes = true.
Proof. reflexivity. Qed.

Section Router.
Variable validate : Schema -> Source -> Request -> option Outcome.
Variable service : Service.

(** X10. In the user router a handler is entered only in a route that
    the request matched, where it stands behind a [validateRequest]; every
    [validateRequest] before it in that route has called [next()] on the
    request, and its event precedes the entry of the handler in the trace.
    A request that enters no handler leaves the store untouched. *)
Theorem handlers_behind_validation (req : Request) (db : Db) :
  let run := router validate service req db in
  (∀ h, Entered h ∈ trace run →
     ∃ r ps pre post schema0 source0,
       r ∈ routes
       ∧ verb r = method req
       ∧ matchPath (pattern r) (path req) = Some ps
       ∧ stack r = (pre ++ handler h :: post)%list
       ∧ validateRequest schema0 source0 ∈ pre
       ∧ ∀ schema source, validateRequest schema source ∈ pre →
           validate schema source (withParams ps req) = None
           ∧ validatedBefore h schema source (trace run))
  ∧ (entered (trace run) = [] → store run = db).
Proof.
  intros run. subst run. split.
  - intros h Hin.
    destruct (dispatch_entered _ _ _ _ _ _ _ Hin)
      as (r & ps & pre & post & Hr & Hverb & Hpath & Hstack & Hpre).
    assert (Hscreened : screened (stack r) = true).
    { pose proof routes_screened as Hall.
      rewrite forallb_forall in Hall. apply Hall. by apply list_elem_of_In. }
    rewrite Hstack in Hscreened.
    destruct (screened_before _ _ _ Hscreened) as (schema0 & source0 & Hmem).
    by exists r, ps, pre, post, schema0, source0.
  - apply dispatch_untouched.
Qed.

Lemma matchPath_literal (s x : string) :
  matchPath [Lit s] [x] = if sameLiteral s x then Some ∅ else None.
Proof. reflexivity. Qed.

Lemma get_one_segment (req : Request) (db : Db) (id : string) :
  method req = GET →
  path req = [id] →
  router validate service req db =
    if sameLiteral "search" id then
      runStack (fun _ => None) validate (handle service)
        [logRequest; validateRequest searchSchema InQuery; handler searchHandler]
        (withParams ∅ req) db
    else if sameLiteral "count" id then
      runStack (fun _ => None) validate (handle service)
        [logRequest; validateRequest searchSchema InQuery; handler countHandler]
        (withParams ∅ req) db
    else
      runStack (fun _ => None) validate (handle service)
        [logRequest; validateRequest idSchema InParams; handler getByIdHandler]
        (withParams {[ "id" := JStr id ]} req) db.
Proof.
  intros Hmethod Hpath. unfold router, routes.
  destruct (sameLiteral "search" id) eqn:Hsearch.
  { rewrite (dispatch_hit _ _ _ _ _ _ _ ∅);
      [done | by rewrite Hmethod
      | cbn [pattern]; rewrite Hpath, matchPath_literal; by rewrite Hsearch
      | apply (runStack_handler_ends _ _ _ [_; _]) ]. }
  rewrite dispatch_other_path
    by (cbn [pattern]; rewrite Hpath, matchPath_literal; by rewrite Hsearch).
  destruct (sameLiteral "count" id) eqn:Hcount.
  { rewrite (dispatch_hit _ _ _ _ _ _ _ ∅);
      [done | by rewrite Hmethod
      | cbn [pattern]; rewrite Hpath, matchPath_literal; by rewrite Hcount
      | apply (runStack_handler_ends _ _ _ [_; _]) ]. }
  rewrite dispatch_other_path
    by (cbn [pattern]; rewrite Hpath, matchPath_literal; by rewrite Hcount).
  rewrite dispatch_other_path
    by (cbn [pattern]; rewrite Hpath; by apply matchPath_shorter).
  rewrite dispatch_other_verb by (cbn [verb]; by rewrite Hmethod).
  rewrite (dispatch_hit _ _ _ _ _ _ _ (<["id" := JStr id]> ∅));
    [done | by rewrite Hmethod | cbn [pattern]; by rewrite Hpath
    | apply (runStack_handler_ends _ _ _ [_; _]) ].
Qed.

(** X11. A [GET] on one path segment enters exactly one handler once the
    validation of its route has passed: the search handler for [search]
    and the count handler for [count], in whatever case their letters are
    written, and the [GET /:id] handler for every other segment. The
    literal routes, registered first, keep these two words from ever
    being taken for an id. *)
Theorem literal_routes_first (req : Request) (db : Db) (id : string) :
  method req = GET →
  path req = [id] →
  let run := router validate service req db in
  (sameLiteral "search" id = true →
   validate searchSchema InQuery (withParams ∅ req) = None →
   entered (trace run) = [searchHandler])
  ∧ (sameLiteral "search" id = false →
     sameLiteral "count" id = true →
     validate searchSchema InQuery (withParams ∅ req) = None →
     entered (trace run) = [countHandler])
  ∧ (sameLiteral "search" id = false →
     sameLiteral "count" id = false →
     validate idSchema InParams (withParams {[ "id" := JStr id ]} req) = None →
     entered (trace run) = [getByIdHandler]).
Proof.
  intros Hmethod Hpath run. subst run. rewrite (get_one_segment req db id) by done.
  split; [|split].
  - intros -> Hvalid. cbn [runStack]. rewrite Hvalid.
    cbn [emit trace entered omap]. unfold handle, awaiting.
    by destruct (search service _ db) as [[?|?] ?].
  - intros -> -> Hvalid. cbn [runStack]. rewrite Hvalid.
    cbn [emit trace entered omap]. unfold handle, awaiting.
    by destruct (count service _ db) as [[?|?] ?].
  - intros -> -> Hvalid. cbn [runStack]. rewrite Hvalid.
    cbn [emit trace entered omap]. unfold handle, awaiting.
    by destruct (getById service _ db) as [[?|?] ?].
Qed.

Definition userNotFound : JsError := AppError "User not found" "User not found" (Some 404).

(** X12. [GET /:id] on the user resource, for an id that is neither
    [search] nor [count] in any case of their letters, answers 200 with
    the item when the service resolves to a truthy value, and hands the
    error 'User not found', which the error-handling middleware answers
    with 404, when it resolves to a falsy one such as [null]; the store is
    the one the service left. *)
Theorem getById_or_404 (req : Request) (db db' : Db) (id : string) (item : JsValue) :
  method req = GET →
  path req = [id] →
  sameLiteral "search" id = false →
  sameLiteral "count" id = false →
  validate idSchema InParams (withParams {[ "id" := JStr id ]} req) = None →
  getById service (JStr id) db = (Ok item, db') →
  let run := router validate service req db in
  result run = Some (if truthy item then Sent {| status := 200; json := item |}
                     else NextError userNotFound)
  ∧ store run = db'
  ∧ ∀ handleError,
      status <$> defineErrorHandlingMiddleware handleError userNotFound = Some 404.
Proof.
  intros Hmethod Hpath Hsearch Hcount Hvalid Hget run. subst run.
  rewrite (get_one_segment req db id) by done.
  rewrite Hsearch, Hcount. cbn [runStack]. rewrite Hvalid.
  cbn [emit result store]. unfold handle. cbn [params withParams].
  rewrite prop_singleton_eq. unfold awaiting. rewrite Hget. cbn [outcome after].
  split; [|done]. by destruct (truthy item).
Qed.

Lemma follow_route (req : Request) (db : Db) (id : string) :
  method req = GET →
  path req = [id; "follow"] →
  router validate service req db =
    runStack (fun _ => None) validate (handle service)
      [logRequest; validateRequest idSchema InParams; handler followHandler]
      (withParams {[ "id" := JStr id ]} req) db.
Proof.
  intros Hmethod Hpath. unfold router, routes.
  rewrite 2!dispatch_other_path
    by (cbn [pattern]; rewrite Hpath; by apply matchPath_shorter).
  rewrite (dispatch_hit _ _ _ _ _ _ _ (<["id" := JStr id]> ∅));
    [done | by rewrite Hmethod | cbn [pattern]; by rewrite Hpath
    | apply (runStack_handler_ends _ _ _ [_; _]) ].
Qed.

(** X13. For a session user whose [_id] is not strictly equal to the id
    of the path, [GET /:id/follow] invokes [followUser] exactly once, with
    the session user's id and the path id, and no other operation; it
    answers 200 with the result, or hands the rejection to [next]. *)
Theorem follow_invokes_service_once (req : Request) (db : Db) (id : string)
    (currentUserId : JsValue) :
  method req = GET →
  path req = [id; "follow"] →
  validate idSchema InParams (withParams {[ "id" := JStr id ]} req) = None →
  member (user req) "_id" = Ok currentUserId →
  strictEquals currentUserId (JStr id) = false →
  let run := router validate service req db in
  let call := followUser service currentUserId (JStr id) db in
  trace run = [ Logged; Validated idSchema InParams true; Entered followHandler;
                Invoked "followUser" [currentUserId; JStr id] ]
  ∧ store run = call.2
  ∧ result run = Some match call.1 with
                      | Ok r => Sent {| status := 200; json := JObj {[ "result" := r ]} |}
                      | Throw e => NextError e
                      end.
Proof.
  intros Hmethod Hpath Hvalid Huser Hother run call. subst run call.
  rewrite (follow_route req db id) by done.
  cbn [runStack]. rewrite Hvalid. cbn [emit trace result store].
  unfold handle. cbn [user params withParams]. rewrite Huser, prop_singleton_eq, Hother.
  unfold awaiting. by destruct (followUser service currentUserId (JStr id) db) as [[r|e] db'].
Qed.

(** X14. Without a session user, [GET /:id/follow] throws on
    [req.user._id] before its [try]: no response is sent, [next] is not
    called, no service operation is invoked and the store is untouched. *)
Theorem follow_without_session (req : Request) (db : Db) (id : string) :
  method req = GET →
  path req = [id; "follow"] →
  validate idSchema InParams (withParams {[ "id" := JStr id ]} req) = None →
  user req = JUndefined →
  let run := router validate service req db in
  result run
  = Some (Unhandled (TypeError "Cannot read properties of undefined (reading '_id')"))
  ∧ (∀ handleError, result run ≫= surface handleError = None)
  ∧ (∀ operation args, Invoked operation args ∉ trace run)
  ∧ store run = db.
Proof.
  intros Hmethod Hpath Hvalid Huser run. subst run.
  rewrite (follow_route req db id) by done.
  cbn [runStack]. rewrite Hvalid. cbn [emit trace result store].
  unfold handle. cbn [user params withParams]. rewrite Huser.
  cbn [member outcome invoked after map]. repeat split.
  intros operation args Hin.
  repeat (apply elem_of_cons in Hin as [Hin|Hin]; [discriminate Hin|]).
  by apply elem_of_nil in Hin.
Qed.

End Router.

Lemma handlers_behind_validation_witness :
  let req := requestWith GET ["a11"] JUndefined JUndefined in
  ∃ r ps pre post schema0 source0,
    r ∈ routes
    ∧ verb r = method req
    ∧ matchPath (pattern r) (path req) = Some ps
    ∧ stack r = (pre ++ handler getByIdHandler :: post)%list
    ∧ validateRequest schema0 source0 ∈ pre
    ∧ ∀ schema source, validateRequest schema source ∈ pre →
        accepting schema source (withParams ps req) = None
        ∧ validatedBefore getByIdHandler schema source
            (trace (router accepting emptyService req nobody)).
Proof.
  apply (handlers_behind_validation accepting emptyService
           (requestWith GET ["a11"] JUndefined JUndefined) nobody).
  apply list_elem_of_lookup. by exists 2%nat.
Defined.

Lemma literal_routes_first_witness :
  entered (trace (router accepting emptyService
                    (requestWith GET ["SEARCH"] JUndefined JUndefined) nobody))
  = [searchHandler].
Proof.
  apply (literal_routes_first accepting emptyService
           (requestWith GET ["SEARCH"] JUndefined JUndefined) nobody "SEARCH");
    reflexivity.
Defined.

Lemma getById_or_404_witness :
  result (router accepting emptyService
            (requestWith GET ["a11"] JUndefined JUndefined) nobody)
  = Some (NextError userNotFound).
Proof.
  apply (getById_or_404 accepting emptyService
           (requestWith GET ["a11"] JUndefined JUndefined) nobody nobody "a11" JNull);
    done.
Defined.

Definition sessionOf (id : string) : JsValue := JObj {[ "_id" := JStr id ]}.

Lemma follow_invokes_service_once_witness :
  trace (router accepting emptyService
           (requestWith GET ["b22"; "follow"] (sessionOf "a11") JUndefined) nobody)
  = [ Logged; Validated idSchema InParams true; Entered followHandler;
      Invoked "followUser" [JStr "a11"; JStr "b22"] ].
Proof.
  apply (follow_invokes_service_once accepting emptyService
           (requestWith GET ["b22"; "follow"] (sessionOf "a11") JUndefined) nobody
           "b22" (JStr "a11"));
    reflexivity.
Defined.

Lemma follow_without_session_witness :
  result (router accepting emptyService
            (requestWith GET ["b22"; "follow"] JUndefined JUndefined) nobody)
  = Some (Unhandled (TypeError "Cannot read properties of undefined (reading '_id')")).
Proof.
  apply (follow_without_session accepting emptyService
           (requestWith GET ["b22"; "follow"] JUndefined JUndefined) nobody "b22");
    reflexivity.
Defined.

End UserLaws.

(** ** The role router, continued *)

Module RoleLaws.
Import RoleApi Handlers RoleHandlers JsFacts ExpressFacts RouterLaws.

(** Every route that is not a [GET] starts with [logRequest] and
    [isAuthorized]; no [GET] route has [isAuthorized] in its stack. *)
Definition authorizationFirst (r : Route Schema Handler) : bool :=
  match verb r, stack r with
  | GET, layers =>
      forallb (fun l => match l with isAuthorized => false | _ => true end) layers
  | _, logRequest :: isAuthorized :: _ => true
  | _, _ => false
  end.

Lemma routes_authorizationFirst : forallb authorizationFirst routes = true.
Proof. reflexivity. Qed.

Section Routes.
Variable authorize : Request -> option Outcome.
Variable validate : Schema -> Source -> Request -> option Outcome.
Variable handle : Handler -> Request -> Db -> Handled.

Local Abbreviation run := (runStack authorize validate handle).
Local Abbreviation route := (dispatch authorize validate handle).

Lemma runStack_unchecked layers req db b :
  forallb (fun l => match l with isAuthorized => false | _ => true end) layers = true →
  AuthorizationChecked b ∉ trace (run layers req db).
Proof.
  induction layers as [|layer layers IH]; simpl; intros Hall Hin.
  - by apply elem_of_nil in Hin.
  - apply andb_true_iff in Hall as [Hl Hall].
    destruct layer as [| |schema source|h]; simpl in Hin; try discriminate Hl.
    + apply elem_of_cons in Hin as [Hin|Hin]; [discriminate Hin | by apply IH].
    + destruct (validate schema source req); simpl in Hin.
      * apply list_elem_of_singleton in Hin. discriminate Hin.
      * apply elem_of_cons in Hin as [Hin|Hin]; [discriminate Hin | by apply IH].
    + apply elem_of_cons in Hin as [Hin|Hin]; [discriminate Hin|].
      apply list_elem_of_fmap in Hin as (c & Hc & _). discriminate Hc.
Qed.

Lemma dispatch_unchecked rs req db b :
  forallb authorizationFirst rs = true →
  method req = GET →
  AuthorizationChecked b ∉ trace (route rs req db).
Proof.
  intros Hall Hget. revert db. induction rs as [|r rs IH]; intros db; simpl.
  - apply not_elem_of_nil.
  - simpl in Hall. apply andb_true_iff in Hall as [Hr Hrs].
    destruct (decide (verb r = method req)) as [Hverb|_]; [|by apply IH].
    destruct (matchPath (pattern r) (path req)) as [ps|]; [|by apply IH].
    unfold authorizationFirst in Hr. rewrite Hverb, Hget in Hr.
    destruct (result (run (stack r) (withParams ps req) db)).
    + by apply runStack_unchecked.
    + simpl. intros [Hin|Hin]%elem_of_app.
      * by apply (runStack_unchecked _ _ _ b Hr) in Hin.
      * by apply (IH Hrs) in Hin.
Qed.

Lemma dispatch_denied rs req db o :
  forallb authorizationFirst rs = true →
  method req ≠ GET →
  (∀ ps, authorize (withParams ps req) = Some o) →
  route rs req db = {| trace := []; result := None; store := db |}
  ∨ route rs req db
    = {| trace := [Logged; AuthorizationChecked false]; result := Some o; store := db |}.
Proof.
  intros Hall Hmethod Hdeny. induction rs as [|r rs IH]; simpl; [by left|].
  simpl in Hall. apply andb_true_iff in Hall as [Hr Hrs].
  destruct (decide (verb r = method req)) as [Hverb|_]; [|by apply IH].
  destruct (matchPath (pattern r) (path req)) as [ps|]; [|by apply IH].
  unfold authorizationFirst in Hr. rewrite Hverb in Hr.
  destruct (method req) eqn:Hm; [done| | |];
    (destruct (stack r) as [|[| | |] [|[| | |] rest]]; try discriminate Hr;
     simpl; rewrite Hdeny; simpl; by right).
Qed.

(** X15. No [GET] on the role router is ever checked by [isAuthorized]:
    searching, counting and reading roles and their permissions need no
    authorization. *)
Theorem reads_skip_authorization (req : Request) (db : Db) (granted : bool) :
  method req = GET →
  AuthorizationChecked granted ∉ trace (route routes req db).
Proof. intros Hget. by apply dispatch_unchecked. Qed.

(** X16. On the role router a request that is not a [GET] and that
    [isAuthorized] ends is answered by [isAuthorized] alone: it is never
    validated, enters no handler and leaves the store untouched; if no
    route matches it, it falls through unanswered. *)
Theorem denial_before_validation (req : Request) (db : Db) (o : Outcome) :
  method req ≠ GET →
  (∀ ps, authorize (withParams ps req) = Some o) →
  let r := route routes req db in
  store r = db
  ∧ entered (trace r) = []
  ∧ (∀ schema source ok, Validated schema source ok ∉ trace r)
  ∧ (result r = None ∨ result r = Some o).
Proof.
  intros Hmethod Hdeny r. subst r.
  destruct (dispatch_denied routes req db o routes_authorizationFirst Hmethod Hdeny)
    as [-> | ->]; cbn [store trace result entered omap].
  - split; [done|]. split; [done|].
    split; [intros ? ? ?; apply not_elem_of_nil | by left].
  - split; [done|]. split; [done|]. split; [|by right]. intros schema source ok Hin.
    repeat (apply elem_of_cons in Hin as [Hin|Hin]; [discriminate Hin|]).
    by apply elem_of_nil in Hin.
Qed.

End Routes.

Section Handlers.
Variable authorize : Request -> option Outcome.
Variable validate : Schema -> Source -> Request -> option Outcome.
Variable service : Service.

Ltac skip_route Hmethod Hpath :=
  first
    [ rewrite dispatch_other_verb by (cbn [verb]; by rewrite Hmethod)
    | rewrite dispatch_other_path
        by (cbn [pattern]; rewrite Hpath; by apply matchPath_shorter) ].

Ltac hit_route Hmethod Hpath id :=
  rewrite (dispatch_hit _ _ _ _ _ _ _ (<["id" := JStr id]> ∅));
    [ | by rewrite Hmethod | cbn [pattern]; by rewrite Hpath
      | first [ apply (runStack_handler_ends _ _ _ [_; _])
              | apply (runStack_handler_ends _ _ _ [_; _; _])
              | apply (runStack_handler_ends _ _ _ [_; _; _; _]) ] ].

Definition roleNotFound : JsError := AppError "Role not found" "Role not found" (Some 404).

(** X17. [GET /:id/permissions] for an id whose role the service does not
    find hands the error 'Role not found' (404) to [next] after the single
    call of [getById]: the resources are not read. *)
Theorem permissions_of_missing_role (req : Request) (db db' : Db) (id : string)
    (role : JsValue) :
  method req = GET →
  path req = [id; "permissions"] →
  validate idSchema InParams (withParams {[ "id" := JStr id ]} req) = None →
  getById service (JStr id) db = (Ok role, db') →
  truthy role = false →
  router authorize validate service req db =
    {| trace := [ Logged; Validated idSchema InParams true;
                  Entered getPermissionsHandler; Invoked "getById" [JStr id] ];
       result := Some (NextError roleNotFound);
       store := db' |}.
Proof.
  intros Hmethod Hpath Hvalid Hget Hfalsy. unfold router, routes.
  do 6 skip_route Hmethod Hpath. hit_route Hmethod Hpath id.
  change ({[ "id" := JStr id ]} : JsObject)
    with (<["id" := JStr id]> (∅ : JsObject)) in Hvalid.
  cbn [stack runStack]. rewrite Hvalid. unfold handle. cbn [params withParams].
  rewrite prop_insert_eq. unfold handling, invoke.
  unfold mbind, Handling_bind. rewrite Hget, Hfalsy. reflexivity.
Qed.


(** A [Map] that holds the entries of [m]. *)
Definition mapOf (m : JsObject) : JsValue := entriesValue (map_to_list m).

(** The values that have an iterator. *)
Definition iterable (v : JsValue) : bool :=
  match v with
  | JArr _ | JStr _ => true
  | _ => false
  end.

Lemma entriesOf_entries (es : list (string * JsValue)) :
  entriesOf ((fun e => JArr [JStr e.1; e.2]) <$> es) = Ok es.
Proof.
  induction es as [|[k v] es IH]; [done|].
  cbn [fmap list_fmap entriesOf entryOf toText hd mbind Result_bind fst snd].
  change (list_fmap _ _ ?f es) with (f <$> es). by rewrite IH.
Qed.

(** [Object.fromEntries] of a map is the object with the same entries. *)
Lemma fromEntries_mapOf (m : JsObject) : fromEntries (mapOf m) = Ok m.
Proof.
  unfold mapOf, entriesValue, fromEntries. rewrite entriesOf_entries.
  cbn [mbind Result_bind mret Result_ret]. f_equal.
  rewrite <- (list_to_map_to_list m) at 2.
  apply list_to_map_proper.
  - apply (NoDup_Permutation_proper _ _ (Permutation.Permutation_sym
             (fmap_Permutation fst _ _ (Permutation.Permutation_rev (map_to_list m))))).
    apply NoDup_fst_map_to_list.
  - symmetry. apply Permutation.Permutation_rev.
Qed.

Lemma fromEntries_not_iterable (v : JsValue) :
  iterable v = false → ∃ e, fromEntries v = Throw e ∧ name e = "TypeError".
Proof. destruct v; try discriminate; intros _; by eexists. Qed.

(** X18. [GET /:id/permissions] for a role that is found reads the
    resources and then turns [role.permissions] into an object. For a
    [Map] it answers 200 with the role's id and name, the resources and
    the object that holds exactly the entries of the map. For permissions
    without an iterator, a plain object and a missing property among them,
    it answers nothing itself: a [TypeError] goes to [next], after both
    reads have been made. *)
Theorem permissions_need_entries (req : Request) (db db1 db2 : Db) (id : string)
    (role : JsObject) (resources : JsValue) :
  method req = GET →
  path req = [id; "permissions"] →
  validate idSchema InParams (withParams {[ "id" := JStr id ]} req) = None →
  getById service (JStr id) db = (Ok (JObj role), db1) →
  getAllGroupedByType service db1 = (Ok resources, db2) →
  let run := router authorize validate service req db in
  trace run = [ Logged; Validated idSchema InParams true;
                Entered getPermissionsHandler; Invoked "getById" [JStr id];
                Invoked "getAllGroupedByType" [] ]
  ∧ store run = db2
  ∧ (∀ m : JsObject, prop role "permissions" = mapOf m →
       result run = Some (Sent {| status := 200;
         json := JObj (list_to_map
           [ ("roleId", prop role "_id"); ("roleName", prop role "name");
             ("resourcesByType", resources); ("permissions", JObj m) ]) |}))
  ∧ (iterable (prop role "permissions") = false →
     ∃ e, result run = Some (NextError e) ∧ name e = "TypeError").
Proof.
  intros Hmethod Hpath Hvalid Hget Hall run. subst run. unfold router, routes.
  do 6 skip_route Hmethod Hpath. hit_route Hmethod Hpath id.
  change ({[ "id" := JStr id ]} : JsObject)
    with (<["id" := JStr id]> (∅ : JsObject)) in Hvalid.
  cbn [stack runStack]. rewrite Hvalid. unfold handle. cbn [params withParams].
  rewrite prop_insert_eq. unfold handling, invoke, evaluate.
  unfold mbind, Handling_bind. rewrite Hget. cbn [truthy negb].
  rewrite Hall. cbn [member].
  destruct (fromEntries (prop role "permissions")) as [permissions|e] eqn:Hentries;
    cbn [emit trace result store entered omap app map fst snd].
  - split; [done|]. split; [done|]. split.
    + intros m Hm. rewrite Hm, fromEntries_mapOf in Hentries.
      by injection Hentries as <-.
    + intros Hno. destruct (fromEntries_not_iterable _ Hno) as (e & He & _). congruence.
  - split; [done|]. split; [done|]. split.
    + intros m Hm. rewrite Hm, fromEntries_mapOf in Hentries. discriminate Hentries.
    + intros Hno. destruct (fromEntries_not_iterable _ Hno) as (e' & He & Hname).
      exists e. split; [done | congruence].
Qed.

(** X19. [PUT /:id/permissions] answers 200 with whatever
    [updateRolePermissions] resolves to, [null] included, where
    [PUT /:id] answers 'Role not found' for the same falsy result: the
    permissions route has no check for a missing role. *)
Theorem permissions_update_unchecked (req req' : Request) (db db' : Db) (id : string)
    (role permissions : JsValue) :
  method req = PUT → path req = [id; "permissions"] →
  method req' = PUT → path req' = [id] →
  (∀ r, authorize r = None) →
  (∀ schema source r, validate schema source r = None) →
  member (body req) "permissions" = Ok permissions →
  updateRolePermissions service (JStr id) permissions db = (Ok role, db') →
  updateById service (JStr id) (body req') db = (Ok role, db') →
  result (router authorize validate service req db)
  = Some (Sent {| status := 200; json := role |})
  ∧ result (router authorize validate service req' db)
    = Some (if truthy role then Sent {| status := 200; json := role |}
            else NextError roleNotFound).
Proof.
  intros Hmethod Hpath Hmethod' Hpath' Hauth Hvalid Hbody Hperm Hupdate. split.
  - unfold router, routes.
    do 7 skip_route Hmethod Hpath. hit_route Hmethod Hpath id.
    cbn [stack runStack]. rewrite Hauth, !Hvalid. unfold handle.
    cbn [params body withParams]. rewrite prop_insert_eq.
    unfold handling, invoke, evaluate, mbind, Handling_bind.
    rewrite Hbody, Hperm. reflexivity.
  - unfold router, routes.
    do 4 skip_route Hmethod' Hpath'. hit_route Hmethod' Hpath' id.
    cbn [stack runStack]. rewrite Hauth, !Hvalid. unfold handle.
    cbn [params body withParams]. rewrite prop_insert_eq.
    unfold handling, invoke, mbind, Handling_bind.
    rewrite Hupdate. by destruct (truthy role).
Qed.

End Handlers.

Definition getRole : Request :=
  {| method := GET; path := ["r1"]; params := ∅; query := JUndefined;
     body := JUndefined; user := JUndefined |}.

Definition forbidden : Outcome :=
  resStatusJson 403 (JObj {[ "message" := JStr "Forbidden" ]}).

Lemma reads_skip_authorization_witness :
  AuthorizationChecked true
  ∉ trace (dispatch (fun _ => Some forbidden) (fun _ _ _ => None) RoleFacts.answering
             routes getRole RoleFacts.emptyDb).
Proof.
  apply (reads_skip_authorization (fun _ => Some forbidden) (fun _ _ _ => None)
           RoleFacts.answering getRole RoleFacts.emptyDb true).
  reflexivity.
Defined.

Lemma denial_before_validation_witness :
  result (dispatch (fun _ => Some forbidden) (fun _ _ _ => None) RoleFacts.answering
            routes RoleFacts.putRole RoleFacts.emptyDb) = None
  ∨ result (dispatch (fun _ => Some forbidden) (fun _ _ _ => None) RoleFacts.answering
              routes RoleFacts.putRole RoleFacts.emptyDb) = Some forbidden.
Proof.
  apply (denial_before_validation (fun _ => Some forbidden) (fun _ _ _ => None)
           RoleFacts.answering RoleFacts.putRole RoleFacts.emptyDb forbidden);
    [discriminate | reflexivity].
Defined.

(** A role service that holds the roles of [found] and resolves every
    update to [null]. *)
Definition roleService (found : JsValue) : Service :=
  {| search := fun _ => mret (JArr []);
     count := fun _ => mret (JNum 0);
     getById := fun _ => mret found;
     create := fun data => mret data;
     updateById := fun _ _ => mret JNull;
     deleteById := fun _ => mret JNull;
     getAllGroupedByType := mret (JObj ∅);
     updateRolePermissions := fun _ _ => mret JNull |}.

Definition roleRequest (m : Method) (p : list string) (b : JsValue) : Request :=
  {| method := m; path := p; params := ∅; query := JUndefined; body := b;
     user := JUndefined |}.

Lemma permissions_of_missing_role_witness :
  result (router (fun _ => None) (fun _ _ _ => None) (roleService JNull)
            (roleRequest GET ["r1"; "permissions"] JUndefined) RoleFacts.emptyDb)
  = Some (NextError roleNotFound).
Proof.
  rewrite (permissions_of_missing_role (fun _ => None) (fun _ _ _ => None)
             (roleService JNull) (roleRequest GET ["r1"; "permissions"] JUndefined)
             RoleFacts.emptyDb RoleFacts.emptyDb "r1" JNull);
    reflexivity.
Defined.

(** A role whose permissions are the map [m], as Mongoose hands it over,
    and the same role with its permissions as a plain object. *)
Definition editor (permissions : JsValue) : JsObject :=
  list_to_map
    [ ("_id", JStr "r1"); ("name", JStr "editor"); ("permissions", permissions) ].

Definition editorPermissions : JsObject :=
  list_to_map [ ("role:read", JBool true); ("role:write", JBool false) ].

Lemma permissions_need_entries_witness :
  result (router (fun _ => None) (fun _ _ _ => None)
            (roleService (JObj (editor (mapOf editorPermissions))))
            (roleRequest GET ["r1"; "permissions"] JUndefined) RoleFacts.emptyDb)
  = Some (Sent {| status := 200;
       json := JObj (list_to_map
         [ ("roleId", JStr "r1"); ("roleName", JStr "editor");
           ("resourcesByType", JObj ∅); ("permissions", JObj editorPermissions) ]) |})
  ∧ ∃ e,
      result (router (fun _ => None) (fun _ _ _ => None)
                (roleService (JObj (editor (JObj editorPermissions))))
                (roleRequest GET ["r1"; "permissions"] JUndefined) RoleFacts.emptyDb)
      = Some (NextError e)
      ∧ name e = "TypeError".
Proof.
  split.
  - destruct (permissions_need_entries (fun _ => None) (fun _ _ _ => None)
                (roleService (JObj (editor (mapOf editorPermissions))))
                (roleRequest GET ["r1"; "permissions"] JUndefined)
                RoleFacts.emptyDb RoleFacts.emptyDb RoleFacts.emptyDb "r1"
                (editor (mapOf editorPermissions)) (JObj ∅)
                eq_refl eq_refl eq_refl eq_refl eq_refl) as (_ & _ & Hmap & _).
    apply (Hmap editorPermissions). reflexivity.
  - destruct (permissions_need_entries (fun _ => None) (fun _ _ _ => None)
                (roleService (JObj (editor (JObj editorPermissions))))
                (roleRequest GET ["r1"; "permissions"] JUndefined)
                RoleFacts.emptyDb RoleFacts.emptyDb RoleFacts.emptyDb "r1"
                (editor (JObj editorPermissions)) (JObj ∅)
                eq_refl eq_refl eq_refl eq_refl eq_refl) as (_ & _ & _ & Hplain).
    apply Hplain. reflexivity.
Defined.

Lemma permissions_update_unchecked_witness :
  result (router (fun _ => None) (fun _ _ _ => None) (roleService JNull)
            (roleRequest PUT ["r1"; "permissions"]
               (JObj {[ "permissions" := JObj ∅ ]})) RoleFacts.emptyDb)
  = Some (Sent {| status := 200; json := JNull |})
  ∧ result (router (fun _ => None) (fun _ _ _ => None) (roleService JNull)
              (roleRequest PUT ["r1"] (JObj ∅)) RoleFacts.emptyDb)
    = Some (NextError roleNotFound).
Proof.
  apply (permissions_update_unchecked (fun _ => None) (fun _ _ _ => None)
           (roleService JNull)
           (roleRequest PUT ["r1"; "permissions"] (JObj {[ "permissions" := JObj ∅ ]}))
           (roleRequest PUT ["r1"] (JObj ∅))
           RoleFacts.emptyDb RoleFacts.emptyDb "r1" JNull (JObj ∅));
    reflexivity.
Defined.

End RoleLaws.

(** ** The session routes *)

Module SessionLaws.
Import Server Handlers SessionRoutes JsFacts JsLaws.

(** X20. [GET /api/user] answers 401 without a session user; for a
    session user it answers with every property of [req.user] except
    [accessToken] and [accessTokenIV]: a [password] the session user
    carries is sent along. *)
Theorem currentUser_hides_token_only (req : Request) :
  (truthy (user req) = false →
   currentUser req = Sent {| status := 401; json := JStr "Unauthorized" |})
  ∧ (∀ u, user req = JObj u →
      ∃ shown : JsObject,
        currentUser req = Sent {| status := 200; json := JObj shown |}
        ∧ shown !! "accessToken" = None
        ∧ shown !! "accessTokenIV" = None
        ∧ (∀ k, k ≠ "accessToken" → k ≠ "accessTokenIV" → shown !! k = u !! k)
        ∧ shown !! "password" = u !! "password").
Proof.
  unfold currentUser. split.
  - by intros ->.
  - intros u ->. cbn [truthy negb ownProperties]. eexists. split; [reflexivity|].
    unfold restWithout. repeat split.
    + rewrite lookup_delete_ne by done. apply lookup_delete_eq.
    + apply lookup_delete_eq.
    + intros k Hk Hk'. by rewrite !lookup_delete_ne.
    + by rewrite !lookup_delete_ne.
Qed.

Lemma currentUser_hides_token_only_witness :
  ∃ shown : JsObject,
    currentUser {| method := GET; path := []; params := ∅; query := JUndefined;
                   body := JUndefined; user := JObj RepositoryFacts.octoUser |}
    = Sent {| status := 200; json := JObj shown |}
    ∧ shown !! "accessToken" = None
    ∧ shown !! "accessTokenIV" = None
    ∧ (∀ k, k ≠ "accessToken" → k ≠ "accessTokenIV" →
            shown !! k = RepositoryFacts.octoUser !! k)
    ∧ shown !! "password" = RepositoryFacts.octoUser !! "password".
Proof.
  apply (currentUser_hides_token_only
           {| method := GET; path := []; params := ∅; query := JUndefined;
              body := JUndefined; user := JObj RepositoryFacts.octoUser |}).
  reflexivity.
Defined.

Section Login.
Variable logIn : JsValue -> option JsError.

(** X21. The login callback answers 200 only when passport reports no
    error, a truthy user, and [req.logIn] succeeded; an error of passport
    goes to [next]; for a falsy user it answers 401 with the message of
    [info], or 'Authentication failed' when that is empty, and it throws
    when [info] itself is [undefined] or [null]. *)
Theorem loginCallback_outcomes (v : Verdict) :
  (∀ r, loginCallback logIn v = Sent r → status r = 200 →
        err v = None ∧ truthy (authenticated v) = true
        ∧ logIn (authenticated v) = None)
  ∧ (∀ e, err v = Some e → loginCallback logIn v = NextError e)
  ∧ (err v = None → truthy (authenticated v) = false →
     (¬ readable (info v) → ∃ e, loginCallback logIn v = Unhandled e)
     ∧ (∀ i, info v = JObj i →
          loginCallback logIn v
          = Sent {| status := 401;
                    json := JObj {[ "message" :=
                      if truthy (prop i "message") then prop i "message"
                      else JStr "Authentication failed" ]} |})).
Proof.
  unfold loginCallback. split; [|split].
  - intros r. destruct (err v) as [e|]; [discriminate|].
    destruct (truthy (authenticated v)); simpl.
    + destruct (logIn (authenticated v)); [discriminate | done].
    + destruct (member (info v) "message"); [|discriminate].
      intros [= <-]. discriminate.
  - by intros e ->.
  - intros -> ->. simpl. split.
    + intros Hinfo. destruct (info v); try (exfalso; apply Hinfo; by split); by eexists.
    + intros i ->. reflexivity.
Qed.
End Login.

Lemma loginCallback_outcomes_witness :
  ∃ e, loginCallback (fun _ => None)
         {| err := None; authenticated := JBool false; info := JUndefined |}
       = Unhandled e.
Proof.
  apply (loginCallback_outcomes (fun _ => None)
           {| err := None; authenticated := JBool false; info := JUndefined |});
    [reflexivity | reflexivity |].
  intros [Hundefined _]. by apply Hundefined.
Defined.

Section Github.
Variable clientHost : string.
Variable logIn : JsValue -> option JsError.
Variable sessionID : JsValue.
Local Abbreviation callback := (githubCallback clientHost logIn sessionID).

(** X22. Whenever passport reports an error or no user, or [req.logIn]
    fails, the OAuth callback redirects to the login page of the client
    with an [error] parameter, sets no cookie and leaves the session as it
    was; with no error and no user the parameter reads [undefined]. *)
Theorem github_failure_redirects (v : Verdict) (session : JsObject) :
  is_Some (err v) ∨ truthy (authenticated v) = false
  ∨ is_Some (logIn (authenticated v)) →
  ∃ code,
    callback v session = (Redirect (clientHost +:+ "/login?error=" +:+ code) [], session)
    ∧ (err v = None → truthy (authenticated v) = false → code = "undefined").
Proof.
  intros Hfail. unfold githubCallback.
  destruct (err v) as [e|] eqn:He.
  - exists (name e). rewrite bool_decide_true by by eexists. split; [done|]. discriminate.
  - rewrite bool_decide_false by (intros [? ?]; discriminate).
    destruct (truthy (authenticated v)) eqn:Hu; simpl.
    + destruct Hfail as [[? ?]|[?|[e He']]]; try discriminate.
      rewrite He'. exists "failed-to-authenticate". split; [done|]. discriminate.
    + by exists "undefined".
Qed.

(** X23. For a user with the [_id] [id], without error and with
    [req.logIn] succeeding, the OAuth callback records the user id and the
    session id in the session, sets the single cookie [userId] to [id]
    with [httpOnly], [secure] and [sameSite: lax], and redirects to
    [/login-success]. *)
Theorem github_success_sets_cookie (v : Verdict) (session : JsObject) (id : string) :
  err v = None →
  member (authenticated v) "_id" = Ok (JStr id) →
  logIn (authenticated v) = None →
  callback v session =
    (Redirect (clientHost +:+ "/login-success")
       [ {| cookieName := "userId"; cookieValue := id; expires := None;
            httpOnly := true; secure := true; sameSite := "lax" |} ],
     <["sessionId" := sessionID]> (<["userId" := JStr id]> session)).
Proof.
  intros He Hid Hin. unfold githubCallback. rewrite He.
  rewrite bool_decide_false by (intros [? ?]; discriminate).
  assert (Hu : truthy (authenticated v) = true).
  { destruct (authenticated v); try discriminate Hid; done. }
  rewrite Hu. simpl. by rewrite Hin, Hid.
Qed.
End Github.

Section Register.
Variable registerUser : JsValue -> Svc JsValue.

(** The object [{ email, password }] built from a request body. *)
Definition credentialsOf (b : JsObject) : JsValue :=
  JObj (list_to_map [ ("email", prop b "email"); ("password", prop b "password") ]).

(** X24. [POST /api/register] calls [registerUser] exactly once, with an
    object of the [email] and [password] of the body and nothing else the
    body carries; it answers 201 with the message and the [_id] of the new
    user only, and hands a rejection, or the [TypeError] of reading [_id]
    of a [null] result, to [next]. *)
Theorem register_passes_credentials_only (req : Request) (db : Db) (b : JsObject) :
  body req = JObj b →
  let run := register registerUser req db in
  let call := registerUser (credentialsOf b) db in
  invoked run = [("registerUser", [credentialsOf b])]
  ∧ dom (ownProperties (credentialsOf b)) = {[ "email"; "password" ]}
  ∧ after run = call.2
  ∧ outcome run =
      match call.1 with
      | Ok newUser =>
          match member newUser "_id" with
          | Ok userId =>
              Sent {| status := 201;
                      json := JObj (list_to_map
                        [ ("message", JStr "User registered successfully");
                          ("userId", userId) ]) |}
          | Throw e => NextError e
          end
      | Throw e => NextError e
      end.
Proof.
  intros Hbody run call. subst run call.
  assert (Hdom : dom (ownProperties (credentialsOf b))
                 = ({[ "email"; "password" ]} : gset string)).
  { unfold credentialsOf. cbn [ownProperties]. rewrite dom_list_to_map_L. set_solver. }
  unfold register, handling, invoke, evaluate.
  unfold mbind, Handling_bind. rewrite Hbody. cbn [destructure].
  fold (credentialsOf b).
  destruct (registerUser (credentialsOf b) db) as [[newUser|e] db']; cbn [fst snd];
    [destruct (member newUser "_id") as [userId|e]|];
    unfold mret, Handling_ret; cbn [fst snd app invoked after outcome];
    by repeat split.
Qed.

End Register.

Lemma register_passes_credentials_only_witness :
  let body :=
    list_to_map [ ("email", JStr "eve@example.org"); ("password", JStr "pw");
                  ("isAdmin", JBool true) ] in
  invoked (register (fun credentials => mret credentials)
             {| method := POST; path := []; params := ∅; query := JUndefined;
                body := JObj body; user := JUndefined |} RoleFacts.emptyDb)
  = [("registerUser",
      [JObj (list_to_map [ ("email", JStr "eve@example.org"); ("password", JStr "pw") ])])].
Proof.
  intros body.
  apply (register_passes_credentials_only (fun credentials => mret credentials)
           {| method := POST; path := []; params := ∅; query := JUndefined;
              body := JObj body; user := JUndefined |} RoleFacts.emptyDb body).
  reflexivity.
Defined.

Section Logout.
Variable clientHost : string.
Variable clearAuthInfo : JsValue -> Svc JsValue.

Definition clearedCookie : Cookie :=
  {| cookieName := "userId"; cookieValue := ""; expires := Some (JDate (JNum 0));
     httpOnly := true; secure := true; sameSite := "lax" |}.

(** X25. Once [req.logout] has succeeded, [GET /api/logout] calls
    [clearAuthInfo] once with the id of the session user, which is
    [undefined] when there is none; when that resolves it redirects to the
    login page with the [userId] cookie emptied and expired at the epoch,
    whether or not destroying the session failed, and when it rejects
    nothing is sent. A failure of [req.logout] goes to [next] before any
    of this. *)
Theorem logout_outcomes (destroyError : option JsError) (req : Request)
    (session : option JsObject) (db : Db) :
  let run := logout clientHost None destroyError clearAuthInfo req session db in
  let call := clearAuthInfo (optional (user req) "_id") db in
  run.1.1.2 = [("clearAuthInfo", [optional (user req) "_id"])]
  ∧ (¬ readable (user req) → run.1.1.2 = [("clearAuthInfo", [JUndefined])])
  ∧ run.2 = call.2
  ∧ run.1.1.1 =
      match call.1 with
      | Ok _ => Redirect (clientHost +:+ "/login") [clearedCookie]
      | Throw e => Rejected e
      end
  ∧ (destroyError = None → run.1.2 = None)
  ∧ (∀ e, logout clientHost (Some e) destroyError clearAuthInfo req session db
          = (Failed e, [], session, db)).
Proof.
  intros run call. subst run call. unfold logout.
  destruct (clearAuthInfo (optional (user req) "_id") db) as [[v|e] db'] eqn:Hcall;
    cbn [fst snd]; (repeat split; [|by intros ->]);
    intros Huser; destruct (user req); try done; exfalso; apply Huser; by split.
Qed.

End Logout.

Lemma logout_outcomes_witness :
  (logout "https://app.example" None (Some (TypeError "store down"))
     (fun _ => mret JNull)
     {| method := GET; path := []; params := ∅; query := JUndefined;
        body := JUndefined; user := JUndefined |} (Some ∅) RoleFacts.emptyDb).1.1.2
  = [("clearAuthInfo", [JUndefined])].
Proof.
  apply (logout_outcomes "https://app.example" (fun _ => mret JNull)
           (Some (TypeError "store down"))
           {| method := GET; path := []; params := ∅; query := JUndefined;
              body := JUndefined; user := JUndefined |} (Some ∅) RoleFacts.emptyDb).
  intros [Hundefined _]. by apply Hundefined.
Defined.

Lemma github_failure_redirects_witness :
  ∃ code,
    githubCallback "https://app.example" (fun _ => None) (JStr "s1")
      {| err := None; authenticated := JBool false; info := JUndefined |} ∅
    = (Redirect ("https://app.example" +:+ "/login?error=" +:+ code) [], ∅)
    ∧ code = "undefined".
Proof.
  destruct (github_failure_redirects "https://app.example" (fun _ => None) (JStr "s1")
              {| err := None; authenticated := JBool false; info := JUndefined |} ∅)
    as (code & Hrun & Hcode); [right; by left|].
  exists code. split; [done | by apply Hcode].
Defined.

Lemma github_success_sets_cookie_witness :
  githubCallback "https://app.example" (fun _ => None) (JStr "s1")
    {| err := None; authenticated := JObj RepositoryFacts.octoUser; info := JUndefined |} ∅
  = (Redirect ("https://app.example" +:+ "/login-success")
       [ {| cookieName := "userId"; cookieValue := "u1"; expires := None;
            httpOnly := true; secure := true; sameSite := "lax" |} ],
     <["sessionId" := JStr "s1"]> (<["userId" := JStr "u1"]> ∅)).
Proof.
  apply (github_success_sets_cookie "https://app.example" (fun _ => None) (JStr "s1")
           {| err := None; authenticated := JObj RepositoryFacts.octoUser;
              info := JUndefined |} ∅ "u1");
    reflexivity.
Defined.

End SessionLaws.
